(** * Verification of [neural_info.py] (data reshaping, one-way ANOVA and
    its dispatch), of the jackknife generator of [randstats/sampling.py],
    and of the synchrony engine described for [sync.py]

    Part I holds the embedding (definitions only), Part II the properties. *)

From Stdlib Require Import List ZArith Lia Bool Arith Reals Lra String QArith Qabs Psatz.
From stdpp Require Import base option numbers gmap strings sorting.
Import ListNotations.

(** * Part I: the embedding *)

(** * NumPy arrays: shape and elements *)

Module NumPy.

(** An [ndarray] value: its shape and its elements listed in row-major
    (C) logical order. *)
Record ndarray (A : Type) := NDArray { shape : list nat; elems : list A }.
Arguments NDArray {A} _ _.
Arguments shape {A} _.
Arguments elems {A} _.

Definition prod (s : list nat) : nat := fold_right Nat.mul 1%nat s.

Definition ndim {A} (a : ndarray A) : nat := length (shape a).
Definition size {A} (a : ndarray A) : nat := prod (shape a).

(** Every array NumPy builds holds as many elements as its shape says. *)
Definition wf {A} (a : ndarray A) : Prop := length (elems a) = prod (shape a).

(** Multi-index <-> flat offset, rows first (order='C') ... *)
Fixpoint ravel_C (s idx : list nat) : nat :=
  match s, idx with
  | _ :: s', i :: idx' => i * prod s' + ravel_C s' idx'
  | _, _ => 0
  end.

Fixpoint unravel_C (s : list nat) (k : nat) : list nat :=
  match s with
  | [] => []
  | _ :: s' => (k / prod s') :: unravel_C s' (k mod prod s')
  end.

(** ... and first index fastest (order='F'). *)
Fixpoint ravel_F (s idx : list nat) : nat :=
  match s, idx with
  | n :: s', i :: idx' => i + n * ravel_F s' idx'
  | _, _ => 0
  end.

Fixpoint unravel_F (s : list nat) (k : nat) : list nat :=
  match s with
  | [] => []
  | n :: s' => (k mod n) :: unravel_F s' (k / n)
  end.

Inductive order := C_order | F_order.

Definition ravel (o : order) : list nat -> list nat -> nat :=
  match o with C_order => ravel_C | F_order => ravel_F end.
Definition unravel (o : order) : list nat -> nat -> list nat :=
  match o with C_order => unravel_C | F_order => unravel_F end.

(** [in_bounds idx s]: [idx] addresses a cell of an array of shape [s]. *)
Definition in_bounds (idx s : list nat) : Prop := Forall2 lt idx s.

Definition remove_at {B} (i : nat) (l : list B) : list B :=
  firstn i l ++ skipn (S i) l.
Definition insert_at {B} (i : nat) (x : B) (l : list B) : list B :=
  firstn i l ++ x :: skipn i l.
(** The list with the item at [src] taken out and put back at [dst]:
    what [np.moveaxis] does to the axis order. *)
Definition move_item (src dst : nat) (l : list nat) : list nat :=
  insert_at dst (nth src l 0) (remove_at src l).

(** numpy's [normalize_axis_index]: a negative axis counts from the end,
    anything outside [-ndim, ndim) raises AxisError. *)
Definition normalize_axis_index (axis : Z) (nd : nat) : option nat :=
  if ((- Z.of_nat nd <=? axis) && (axis <? Z.of_nat nd))%Z
  then Some (Z.to_nat (if (axis <? 0)%Z then axis + Z.of_nat nd else axis))
  else None.

(** Python tuple indexing [t[i]] (IndexError is [None]). *)
Definition tuple_index (t : list nat) (i : Z) : option nat :=
  k ← normalize_axis_index i (length t); nth_error t k.

(** [shape[np.arange(len(shape)) != i]]: boolean-mask selection of every
    entry whose position differs from [i]. *)
Definition mask_ne (l : list nat) (i : Z) : list nat :=
  map snd (List.filter (fun p : nat * nat => negb (Z.of_nat (fst p) =? i)%Z)
                  (combine (seq 0 (length l)) l)).

(** The dimensions a [reshape] target fixes (a -1 entry is inferred). *)
Definition known_prod (ns : list Z) : nat :=
  fold_right (fun d acc => if (d =? -1)%Z then acc else Z.to_nat d * acc) 1 ns.

(** The shape [np.reshape] ends up with for an array of [total] elements,
    or [None] where it raises ValueError. *)
Definition resolve_shape (total : nat) (ns : list Z) : option (list nat) :=
  if existsb (fun d => (d <? -1)%Z) ns then None
  else match count_occ Z.eq_dec ns (-1)%Z with
       | 0 => let s := map Z.to_nat ns in
              if prod s =? total then Some s else None
       | 1 => let k := known_prod ns in
              if (k =? 0) || negb (total mod k =? 0) then None
              else Some (map (fun d => if (d =? -1)%Z then total / k
                                       else Z.to_nat d) ns)
       | _ => None
       end.

Section Elements.
Context {A : Type} `{Inhabited A}.

Definition get (a : ndarray A) (idx : list nat) : A :=
  nth (ravel_C (shape a) idx) (elems a) inhabitant.

(** The array of shape [s] whose cell [idx] holds [f idx]. *)
Definition build (s : list nat) (f : list nat -> A) : ndarray A :=
  NDArray s (map (fun k => f (unravel_C s k)) (seq 0 (prod s))).

(** The view with axis [src] moved to position [dst]: cell [idx] of the
    result is the cell of [a] whose index has entry [dst] of [idx] put
    back at position [src]. *)
Definition move_axis (a : ndarray A) (src dst : nat) : ndarray A :=
  build (move_item src dst (shape a))
        (fun idx => get a (move_item dst src idx)).

(** [np.moveaxis(a, source, destination)] for one axis. *)
Definition moveaxis (a : ndarray A) (source destination : Z)
  : option (ndarray A) :=
  src ← normalize_axis_index source (ndim a);
  dst ← normalize_axis_index destination (ndim a);
  Some (move_axis a src dst).

(** [np.reshape(a, newshape, order=o)]. *)
Definition reshape (a : ndarray A) (newshape : list Z) (o : order)
  : option (ndarray A) :=
  s ← resolve_shape (size a) newshape;
  Some (build s (fun idx => get a (unravel o (shape a) (ravel o s idx)))).

(** [a.T]: all axes reversed. *)
Definition transpose (a : ndarray A) : ndarray A :=
  build (rev (shape a)) (fun idx => get a (rev idx)).

(** [a[:, np.newaxis]]: a unit axis inserted at position 1. *)
Definition newaxis_1 (a : ndarray A) : option (ndarray A) :=
  match shape a with
  | [] => None
  | n :: s => Some (NDArray (n :: 1 :: s) (elems a))
  end.

(** [np.squeeze(a)]: every axis of length one is dropped. *)
Definition squeeze (a : ndarray A) : ndarray A :=
  NDArray (List.filter (fun n => negb (n =? 1)) (shape a)) (elems a).
End Elements.

End NumPy.

(** * Python integers as truth values *)

Module Py.
(** [bool] is a subclass of [int]: True is 1, False is 0. *)
Definition int_of_bool (b : bool) : Z := if b then 1%Z else 0%Z.
(** Unary [~] on an int is bitwise inversion, [-x-1]. *)
Definition invert (x : Z) : Z := Z.lnot x.
(** An int is falsy exactly when it is zero. *)
Definition truthy (x : Z) : bool := negb (x =? 0)%Z.
End Py.

(** * neural_info.py: data reshaping helper functions *)

Module NeuralInfo.
Import NumPy.

(** What [_reshape_data] reads of its argument: the array value and the
    [flags.c_contiguous] attribute of its memory layout. *)
Record array_obj (A : Type) :=
  ArrayObj { array_value : ndarray A; flags_c_contiguous : bool }.
Arguments ArrayObj {A} _ _.
Arguments array_value {A} _.
Arguments flags_c_contiguous {A} _.

Section Reshaping.
Context {A : Type} `{Inhabited A}.

(** The branch under [if ~data.flags.c_contiguous:]. *)
Definition reshape_moveaxis_first (data : ndarray A) (axis : Z)
  : option (ndarray A) :=
  let data_shape := shape data in
  let data_ndim := length data_shape in
  d ← (if negb (axis =? 0)%Z then moveaxis data axis 0 else Some data);
  if 2 <? data_ndim
  then n ← tuple_index data_shape axis;
       reshape d [Z.of_nat n; (-1)%Z] F_order
  else Some d.

(** The [else] branch, "Faster method for c-contiguous arrays". *)
Definition reshape_moveaxis_last (data : ndarray A) (axis : Z)
  : option (ndarray A) :=
  let data_shape := shape data in
  let data_ndim := length data_shape in
  let lastdim := (Z.of_nat data_ndim - 1)%Z in
  d ← (if negb (axis =? lastdim)%Z then moveaxis data axis lastdim
       else Some data);
  if 2 <? data_ndim
  then n ← tuple_index data_shape axis;
       r ← reshape d [(-1)%Z; Z.of_nat n] C_order;
       Some (transpose r)
  else Some d.

Definition _reshape_data (data : array_obj A) (axis : Z)
  : option (ndarray A * list nat) :=
  let data_shape := shape (array_value data) in
  let data_ndim := length data_shape in
  d ← (if Py.truthy (Py.invert (Py.int_of_bool (flags_c_contiguous data)))
       then reshape_moveaxis_first (array_value data) axis
       else reshape_moveaxis_last (array_value data) axis);
  d' ← (if data_ndim =? 1 then newaxis_1 d else Some d);
  Some (d', data_shape).

Definition _unreshape_data (data : ndarray A) (data_shape : list nat)
           (axis : Z) : option (ndarray A) :=
  let axis_ := if (axis <? 0)%Z then (Z.of_nat (length data_shape) + axis)%Z
               else axis in
  let data_ndim := length data_shape in
  axis_len ← tuple_index (shape data) 0;
  d ← (if 2 <? data_ndim
       then reshape data
                    (map Z.of_nat (axis_len :: mask_ne data_shape axis_))
                    F_order
       else if data_ndim =? 1 then Some (squeeze data)
       else Some data);
  if negb (axis_ =? 0)%Z then moveaxis d 0 axis_ else Some d.
End Reshaping.
End NeuralInfo.

(** * Numbers: reals, IEEE special values, complex numbers

    Floating-point values are modelled by exact reals extended with the
    special values that a division by zero produces; rounding is not
    modelled. *)

Module Num.
Local Open Scope R_scope.

Inductive fval := Fin (r : R) | PInf | NInf | NaN.

Definition is_zero (x : R) : bool := if Req_EM_T x 0 then true else false.
Definition is_pos (x : R) : bool := if Rlt_dec 0 x then true else false.

Definition is_finite (v : fval) : bool :=
match v with Fin _ => true | _ => false end.

Definition fneg (v : fval) : fval :=
match v with
| Fin r => Fin (- r)
| PInf => NInf
| NInf => PInf
| NaN => NaN
end.

Definition fadd (v w : fval) : fval :=
match v, w with
| NaN, _ | _, NaN => NaN
| Fin a, Fin b => Fin (a + b)
| PInf, NInf | NInf, PInf => NaN
| PInf, _ | _, PInf => PInf
| NInf, _ | _, NInf => NInf
end.

Definition fsub (v w : fval) : fval := fadd v (fneg w).

(** An infinity with the sign of [pos]. *)
Definition inf_of (pos : bool) : fval := if pos then PInf else NInf.

Definition fmul (v w : fval) : fval :=
match v, w with
| NaN, _ | _, NaN => NaN
| Fin a, Fin b => Fin (a * b)
| Fin a, PInf | PInf, Fin a => if is_zero a then NaN else inf_of (is_pos a)
| Fin a, NInf | NInf, Fin a => if is_zero a then NaN else inf_of (negb (is_pos a))
| PInf, PInf | NInf, NInf => PInf
| PInf, NInf | NInf, PInf => NInf
end.

(** Division: a zero divisor gives NaN for 0/0 and an infinity otherwise
    (the divisors of this development are never negative zero). *)
Definition fdiv (v w : fval) : fval :=
match v, w with
| NaN, _ | _, NaN => NaN
| Fin a, Fin b =>
    if is_zero b then (if is_zero a then NaN else inf_of (is_pos a))
    else Fin (a / b)
| Fin _, (PInf | NInf) => Fin 0
| (PInf | NInf), (PInf | NInf) => NaN
| PInf, Fin b => inf_of (is_pos b || is_zero b)
| NInf, Fin b => inf_of (negb (is_pos b || is_zero b))
end.

Definition C : Type := R * R.
Definition Cre (z : C) : R := fst z.
Definition Cim (z : C) : R := snd z.
Definition C0 : C := (0, 0).
Definition Cadd (z w : C) : C := (Cre z + Cre w, Cim z + Cim w).
Definition Cmul (z w : C) : C :=
(Cre z * Cre w - Cim z * Cim w, Cre z * Cim w + Cim z * Cre w).
Definition Cconj (z : C) : C := (Cre z, - Cim z).
Definition Cscale (a : R) (z : C) : C := (a * Cre z, a * Cim z).
Definition Cnorm2 (z : C) : R := Cre z * Cre z + Cim z * Cim z.
Definition Cabs (z : C) : R := sqrt (Cnorm2 z).
Definition Cis_zero (z : C) : bool := is_zero (Cre z) && is_zero (Cim z).

(** [exp(i*theta)] *)
Definition cis (theta : R) : C := (cos theta, sin theta).

(** The principal argument, in (-pi, pi]; [arg 0 = 0] as [np.angle] has it. *)
Definition Carg (z : C) : R :=
let x := Cre z in
let y := Cim z in
if Rlt_dec 0 x then atan (y / x)
else if Rlt_dec x 0 then
       (if Rle_dec 0 y then atan (y / x) + PI else atan (y / x) - PI)
     else if Rlt_dec 0 y then PI / 2
          else if Rlt_dec y 0 then - (PI / 2)
               else 0.

(** A difference of two principal arguments brought back to (-pi, pi]. *)
Definition wrap (theta : R) : R :=
if Rlt_dec PI theta then theta - 2 * PI
else if Rle_dec theta (- PI) then theta + 2 * PI
     else theta.

Definition Rsum (l : list R) : R := fold_right Rplus 0 l.
Definition Rmean (l : list R) : R := / INR (length l) * Rsum l.
Definition Csum (l : list C) : C := fold_right Cadd C0 l.
Definition Cmean (l : list C) : C := Cscale (/ INR (length l)) (Csum l).

End Num.

(** * neural_info.py: the zero-variance convention of [anova1] *)

Module Anova.
Import Num.
Local Open Scope R_scope.

(** [omega_squared(SS_model, SS_total, MS_error, df_model)] for one data
    series: [(SS_model - df_model*MS_error) / (SS_total + MS_error)]. *)
Definition omega_squared (SS_model SS_total : R) (MS_error : fval) (df_model : Z)
  : fval :=
fdiv (fsub (Fin SS_model) (fmul (Fin (IZR df_model)) MS_error))
     (fadd (Fin SS_total) MS_error).

(** [eta_squared(SS_model, SS_total)]: [SS_model / SS_total]. *)
Definition eta_squared (SS_model SS_total : R) : fval :=
fdiv (Fin SS_model) (Fin SS_total).

(** The explained-variance tail of [anova1] (from "Compute degrees of
    freedom" to "Convert proportion -> percent"), for the sums of squares
    [SS_groups], [SS_total] of the data series computed above it.

    With [omega] the statistic is a (1, n_series) matrix, whose row is
    returned.  Without it [eta_squared] returns an (n_series,) vector and
    the two-index assignment [exp_var[:,undefined] = 0] raises IndexError. *)
Definition anova1_exp_var (omega as_pct : bool) (n_obs n_groups : Z)
           (SS_groups SS_total : list R) : option (list fval) :=
let df_groups := (n_groups - 1)%Z in
let df_error := (n_obs - 1 - df_groups)%Z in
let MS_error :=
  map (fun p => fdiv (Fin (fst p - snd p)) (Fin (IZR df_error)))
      (combine SS_total SS_groups) in
let undefined := map is_zero SS_total in
let SS_total' := map (fun t => if is_zero t then 1 else t) SS_total in
if omega then
  let exp_var :=
    map (fun p => omega_squared (fst (fst p)) (snd (fst p)) (snd p) df_groups)
        (combine (combine SS_groups SS_total') MS_error) in
  let exp_var' :=
    map (fun p => if (snd p : bool) then Fin 0 else fst p)
        (combine exp_var undefined) in
  Some (if as_pct then map (fmul (Fin 100)) exp_var' else exp_var')
else None.

End Anova.

(** * sync.py: the synchrony engine

    [sync.py] itself is not part of the sources at hand; its two entry
    points are modelled from the specification (sections 4 to 7), with the
    test suite [test_sync.py] as the only code that exercises them. *)

Module Sync.
Import Num NumPy.
Local Open Scope R_scope.

Inductive method := Coherence | PLV | PPC.
Inductive spec_method := Wavelet | Multitaper | Bandfilter.

(** The names the tests and the specification use for the statistics and
    for the spectral backends. *)
Definition parse_method (s : string) : option method :=
if String.eqb s "coherence" then Some Coherence
else if String.eqb s "PLV" then Some PLV
else if String.eqb s "PPC" then Some PPC
else None.

Definition parse_spec_method (s : string) : option spec_method :=
if String.eqb s "wavelet" then Some Wavelet
else if String.eqb s "multitaper" then Some Multitaper
else if String.eqb s "bandfilter" then Some Bandfilter
else None.

(** ** Synchrony Statistic Engine (specification 4.3), one output cell

    A cell is given by the complex spectral values [(z1_k, z2_k)] of its
    trials. *)

(** Modelled from the spec: [sync.py] is missing; "Let z1_k, z2_k be the
    (taper-averaged) complex spectral values of trial k for signals 1 and 2;
    let dphi_k = arg(z1_k) - arg(z2_k) wrapped to (-pi, pi]". *)
Definition phase_difference (p : C * C) : R :=
wrap (Carg (fst p) - Carg (snd p)).

(** Modelled from the spec: [sync.py] is missing; the mean unit-phase
    vector [(1/N) sum_k exp(i dphi_k)]. *)
Definition mean_phasor (zs : list (C * C)) : C :=
Cmean (map (fun p => cis (phase_difference p)) zs).

(** Modelled from the spec: [sync.py] is missing; the averaged
    cross-spectrum [(1/N) sum_k z1_k conj(z2_k)]. *)
Definition cross_spectrum (zs : list (C * C)) : C :=
Cmean (map (fun p => Cmul (fst p) (Cconj (snd p))) zs).

(** Modelled from the spec: [sync.py] is missing; the averaged power
    spectra [(1/N) sum_k |z1_k|^2] and [(1/N) sum_k |z2_k|^2]. *)
Definition power1 (zs : list (C * C)) : R :=
Rmean (map (fun p => Cnorm2 (fst p)) zs).
Definition power2 (zs : list (C * C)) : R :=
Rmean (map (fun p => Cnorm2 (snd p)) zs).

(** Modelled from the spec: [sync.py] is missing; "PLV: sync =
    | (1/N) sum_k exp(i dphi_k) |". *)
Definition plv (zs : list (C * C)) : R := Cabs (mean_phasor zs).

(** Modelled from the spec: [sync.py] is missing; "Degenerate cells (N=0,
    or all z-values zero producing 0/0)". *)
Definition degenerate (zs : list (C * C)) : bool :=
(length zs =? 0)%nat
|| forallb (fun p => Cis_zero (fst p) && Cis_zero (snd p)) zs.

(** Modelled from the spec: [sync.py] is missing; the three statistics of
    4.3, with "Degenerate cells ... are set to sync=0, dphi=0". *)
Definition cell_sync (m : method) (zs : list (C * C)) : fval :=
if degenerate zs then Fin 0
else match m with
     | Coherence =>
         fdiv (Fin (Cabs (cross_spectrum zs)))
              (Fin (sqrt (power1 zs * power2 zs)))
     | PLV => Fin (plv zs)
     | PPC =>
         let N := INR (length zs) in
         fdiv (Fin (N * (plv zs * plv zs) - 1)) (Fin (N - 1))
     end.

(** Modelled from the spec: [sync.py] is missing; "Circular mean phase
    difference dphi = arg( (1/N) sum_k exp(i dphi_k) ) for all three
    methods", and "Degenerate cells ... are set to sync=0, dphi=0". *)
Definition cell_dphi (m : method) (zs : list (C * C)) : R :=
if degenerate zs then 0 else Carg (mean_phasor zs).

(** ** The engine over whole spectral representations *)

(** A canonicalised spectral representation: for every output cell
    (frequency, time, free axes; row-major), the per-taper values of every
    trial.  Without a taper axis each trial holds one value. *)
Definition spectral : Type := list (list (list C)).

Inductive error :=
| UnknownKeyword (k : string)
| UnknownMethod (s : string)
| UnknownSpecMethod (s : string)
| ShapeMismatch
| TrialCountMismatch
| ProviderRejected
| NotAnArray.

Inductive outcome (A : Type) := Ok (a : A) | Err (e : error).
Arguments Ok {A} _.
Arguments Err {A} _.

(** Modelled from the spec: [sync.py] is missing; "averaged over tapers
    first by complex-averaging each trial's per-taper spectral value into
    one complex value per trial". *)
Definition cell_pairs (c1 c2 : list (list C)) : list (C * C) :=
combine (map Cmean c1) (map Cmean c2).

(** The trial pairs of every output cell of two representations. *)
Definition cells_of (s1 s2 : spectral) : list (list (C * C)) :=
map (fun c => cell_pairs (fst c) (snd c)) (combine s1 s2).

(** Modelled from the spec: [sync.py] is missing;
    [compute(spec1, spec2, method) -> (sync, dphi)], the two representations
    "matching in every dimension", the trial axis "must match exactly". *)
Definition compute (m : method) (s1 s2 : spectral)
  : outcome (list (fval * R)) :=
if negb (length s1 =? length s2)%nat then Err ShapeMismatch
else if negb (forallb (fun c => (length (fst c) =? length (snd c))%nat)
                      (combine s1 s2))
     then Err TrialCountMismatch
     else Ok (map (fun zs => (cell_sync m zs, cell_dphi m zs))
                  (cells_of s1 s2)).

(** The two signals of a cell exchanged. *)
Definition swap_pairs (zs : list (C * C)) : list (C * C) :=
map (fun p => (snd p, fst p)) zs.

(** Both signals of a cell conjugated. *)
Definition conj_pairs (zs : list (C * C)) : list (C * C) :=
map (fun p => (Cconj (fst p), Cconj (snd p))) zs.

(** ** Spike-Field Windowing Layer (specification 4.4) *)

(** Modelled from the spec: [sync.py] is missing; membership of a sample
    time in the window "[t - width/2, t + width/2]". *)
Definition in_window (t width x : R) : bool :=
(if Rle_dec (t - width / 2) x then true else false)
&& (if Rle_dec x (t + width / 2) then true else false).

(** Modelled from the spec: [sync.py] is missing; the samples of one trial
    that fall in the window around [t] and carry a spike. *)
Definition spike_samples {B} (times : list R) (t width : R)
           (spikes : list bool) (values : list B) : list B :=
map snd
    (List.filter (fun p => snd (fst p) && in_window t width (fst (fst p)))
                 (combine (combine times spikes) values)).

(** Modelled from the spec: [sync.py] is missing; "every time sample at
    which a spike occurred within [the window] contributes one phase
    sample: the phase of the field's spectral representation at that
    spike's exact time ... pooled into one effective sample set". *)
Definition pooled_phases (times : list R) (t width : R)
           (spikes : list (list bool)) (field : list (list C)) : list R :=
concat (map (fun p => map Carg (spike_samples times t width (fst p) (snd p)))
            (combine spikes field)).

(** Modelled from the spec: [sync.py] is missing; [n(t)], the number of
    spikes of all trials within the window around [t]. *)
Definition spike_count (times : list R) (t width : R)
           (spikes : list (list bool)) : nat :=
list_sum (map (fun s => length (spike_samples times t width s s)) spikes).

(** Modelled from the spec: [sync.py] is missing; PLV or PPC "over that
    pooled set exactly as in 4.3", and "Cells with n(t)=0 ... are marked
    undefined: sync=NaN, phi=NaN". *)
Definition spike_field_cell (m : method) (phases : list R) : fval * fval :=
if (length phases =? 0)%nat then (NaN, NaN)
else
  let mp := Cmean (map cis phases) in
  let n := INR (length phases) in
  (match m with
   | PPC => fdiv (Fin (n * (Cabs mp * Cabs mp) - 1)) (Fin (n - 1))
   | _ => Fin (Cabs mp)
   end,
   Fin (Carg mp)).

(** The spike train and the field's spectral representation on their
    common trial and time axes. *)
Record spike_field_rep := SpikeFieldRep {
  sf_freqs : ndarray fval;
  sf_times : list R;
  sf_spikes : list (list bool);
  sf_field : list (list (list C))
}.

(** Modelled from the spec: [sync.py] is missing; "Multitaper spike-field
    coupling additionally restricts window centers to those whose analysis
    window fits entirely within the field's available spectral
    timepoints". *)
Definition retained_centers (sm : spec_method) (times centers : list R)
           (width : R) : list R :=
match sm with
| Multitaper =>
    List.filter (fun t => forallb (fun lo => if Rle_dec lo (t - width / 2)
                                             then true else false)
                                  (firstn 1 times)
                          && forallb (fun hi => if Rle_dec (t + width / 2) hi
                                                then true else false)
                                     (firstn 1 (rev times)))
                centers
| _ => centers
end.

(** Modelled from the spec: [sync.py] is missing; the PLV/PPC outputs of
    [coupling]: per frequency and window centre the synchrony and phase,
    per window centre the count [n]. *)
Definition spike_field_compute (m : method) (sm : spec_method)
           (centers : list R) (width : R) (r : spike_field_rep)
  : list (list (fval * fval)) * list nat :=
let cs := retained_centers sm (sf_times r) centers width in
(map (fun field_f =>
        map (fun t => spike_field_cell m
                        (pooled_phases (sf_times r) t width (sf_spikes r)
                                       field_f))
            cs)
     (sf_field r),
 map (fun t => spike_count (sf_times r) t width (sf_spikes r)) cs).

(** ** The store of arrays and the two entry points *)

Definition loc : Type := positive.

(** The arrays a caller can hold: float, complex and boolean ones. *)
Inductive array :=
| AFloat (a : ndarray fval)
| AComplex (a : ndarray C)
| ABool (a : ndarray bool)
| ACount (a : ndarray nat).

(** Values of keyword arguments. *)
Inductive pyval :=
| PNone
| PBool (b : bool)
| PInt (z : Z)
| PFloat (r : R)
| PStr (s : string)
| PRef (l : loc).

Definition heap : Type := gmap loc array.

(** Computations that read the store, may extend it, and may fail. *)
Definition M (A : Type) : Type := heap -> outcome A * heap.

Definition ret {A} (a : A) : M A := fun h => (Ok a, h).
Definition fail {A} (e : error) : M A := fun h => (Err e, h).
Definition bind {A B} (c : M A) (k : A -> M B) : M B :=
fun h => match c h with
         | (Ok a, h') => k a h'
         | (Err e, h') => (Err e, h')
         end.
Definition lift {A} (r : outcome A) : M A := fun h => (r, h).
Definition lift_option {A} (e : error) (o : option A) : M A :=
fun h => (match o with Some a => Ok a | None => Err e end, h).

(** Reading the array a name refers to. *)
Definition read (l : loc) : M array :=
fun h => match h !! l with
         | Some a => (Ok a, h)
         | None => (Err NotAnArray, h)
         end.

(** A new array object, at an address no object of the store has. *)
Definition alloc (a : array) : M loc :=
fun h => let l := fresh (dom h) in (Ok l, <[l := a]> h).

Notation "'let!' x ':=' c 'in' k" := (bind c (fun x => k))
  (at level 10, x name, c at level 100, k at level 200).

(** The frame condition of a computation: every array of the store it
    starts from is in the store it ends with, unchanged. *)
Definition keeps_store {A} (c : M A) : Prop :=
forall h : heap, h ⊆ snd (c h).

(** Modelled from the spec: [sync.py] is missing; "Both reject any keyword
    not in their recognized configuration set with a configuration
    error". *)
Definition check_keywords (recognized : list string)
           (kwargs : list (string * pyval)) : M unit :=
match List.find (fun p => negb (existsb (String.eqb (fst p)) recognized))
                kwargs with
| Some p => fail (UnknownKeyword (fst p))
| None => ret tt
end.

(** The named parameters of [synchrony] and its [**spectral_kwargs]. *)
Record sync_args := SyncArgs {
  axis : Z;
  method_name : string;
  spec_method_name : string;
  return_phase : bool;
  time_axis : Z;
  taper_axis : option Z;
  kwargs : list (string * pyval)
}.

(** What the spectral provider adapter hands to the engine. *)
Record spectral_rep := SpectralRep {
  sr_freqs : ndarray fval;
  sr_timepts : ndarray fval;
  sr_grid : list nat;
  sr_cells : spectral
}.

(** [(sync, freqs, timepts)] or [(sync, freqs, timepts, dphi)] *)
Record sync_result := SyncResult {
  out_sync : loc;
  out_freqs : loc;
  out_timepts : loc;
  out_dphi : option loc
}.

(** The named parameters of [spike_field_coupling] (the tests pass the
    window as [width] and [timepts]). *)
Record coupling_args := CouplingArgs {
  c_sync : sync_args;
  window_width : R;
  window_centers : list R
}.

(** [(sync, freqs, timepts, n)] or [(sync, freqs, timepts, n, phi)];
    [n] is None for coherence. *)
Record coupling_result := CouplingResult {
  c_out_sync : loc;
  c_out_freqs : loc;
  c_out_timepts : loc;
  c_out_n : option loc;
  c_out_phi : option loc
}.

Section EntryPoints.

(** The recognized configuration sets of the two entry points. *)
Variable synchrony_keywords : list string.
Variable coupling_keywords : list string.

(** The Axis Canonicalizer and the Spectral Provider Adapter (4.1, 4.2),
    external to the engine: "Side effect: none (pure function of inputs +
    provider)". *)
Variable ensure_spectral : spec_method -> sync_args -> array -> outcome spectral_rep.
Variable ensure_spike_field :
  spec_method -> sync_args -> array -> array -> outcome spike_field_rep.

(** Modelled from the spec: [sync.py] is missing; the values [synchrony]
    computes from the two input arrays: validation and dispatch (5), the
    adapter on each signal (2), the engine (3). *)
Definition synchrony_values (m : method) (sm : spec_method) (a : sync_args)
           (data1 data2 : array) : outcome (spectral_rep * list (fval * R)) :=
match ensure_spectral sm a data1 with
| Err e => Err e
| Ok s1 =>
    match ensure_spectral sm a data2 with
    | Err e => Err e
    | Ok s2 =>
        match compute m (sr_cells s1) (sr_cells s2) with
        | Err e => Err e
        | Ok out => Ok (s1, out)
        end
    end
end.

(** Configuration errors come first: "Always surfaced synchronously to the
    caller before any computation proceeds". *)
Definition validate (recognized : list string) (a : sync_args)
  : M (method * spec_method) :=
let! ok := check_keywords recognized (kwargs a) in
let! m := lift_option (UnknownMethod (method_name a))
                 (parse_method (method_name a)) in
let! sm := lift_option (UnknownSpecMethod (spec_method_name a))
                  (parse_spec_method (spec_method_name a)) in
ret (m, sm).

(** Modelled from the spec: [sync.py] is missing;
    [synchrony(data1, data2, axis, method, spec_method, return_phase,
    time_axis, taper_axis, **spectral_kwargs)]. *)
Definition synchrony (data1 data2 : loc) (a : sync_args) : M sync_result :=
let! cfg := validate synchrony_keywords a in
let! d1 := read data1 in
let! d2 := read data2 in
let! v := lift (synchrony_values (fst cfg) (snd cfg) a d1 d2) in
let! sync := alloc (AFloat (NDArray (sr_grid (fst v)) (map fst (snd v)))) in
let! freqs := alloc (AFloat (sr_freqs (fst v))) in
let! timepts := alloc (AFloat (sr_timepts (fst v))) in
if return_phase a
then let! dphi := alloc (AFloat (NDArray (sr_grid (fst v))
                                    (map (fun c => Fin (snd c)) (snd v)))) in
     ret (SyncResult sync freqs timepts (Some dphi))
else ret (SyncResult sync freqs timepts None).

(** Modelled from the spec: [sync.py] is missing;
    [spike_field_coupling(spikes, field, axis, time_axis, method,
    spec_method, return_phase, window_width, window_centers,
    **spectral_kwargs)]: coherence goes through the field-field engine and
    returns no [n]; PLV and PPC go through the windowing layer. *)
Definition spike_field_coupling (spikes field : loc) (a : coupling_args)
  : M coupling_result :=
let! cfg := validate coupling_keywords (c_sync a) in
let! s := read spikes in
let! f := read field in
match fst cfg with
| Coherence =>
    let! v := lift (synchrony_values Coherence (snd cfg) (c_sync a) s f) in
    let! sync := alloc (AFloat (NDArray (sr_grid (fst v)) (map fst (snd v)))) in
    let! freqs := alloc (AFloat (sr_freqs (fst v))) in
    let! timepts := alloc (AFloat (sr_timepts (fst v))) in
    if return_phase (c_sync a)
    then let! phi := alloc (AFloat (NDArray (sr_grid (fst v))
                                       (map (fun c => Fin (snd c)) (snd v)))) in
         ret (CouplingResult sync freqs timepts None (Some phi))
    else ret (CouplingResult sync freqs timepts None None)
| m =>
    let! r := lift (ensure_spike_field (snd cfg) (c_sync a) s f) in
    let cs := retained_centers (snd cfg) (sf_times r) (window_centers a)
                               (window_width a) in
    let out := spike_field_compute m (snd cfg) (window_centers a)
                                   (window_width a) r in
    let grid := [length (sf_field r); length cs] in
    let! sync := alloc (AFloat (NDArray grid (concat (map (map fst) (fst out))))) in
    let! freqs := alloc (AFloat (sf_freqs r)) in
    let! timepts := alloc (AFloat (NDArray [length cs] (map Fin cs))) in
    let! n := alloc (ACount (NDArray [length cs] (snd out))) in
    if return_phase (c_sync a)
    then let! phi := alloc (AFloat (NDArray grid
                                       (concat (map (map snd) (fst out))))) in
         ret (CouplingResult sync freqs timepts (Some n) (Some phi))
    else ret (CouplingResult sync freqs timepts (Some n) None)
end.

End EntryPoints.

End Sync.

(** * test_sync.py: the regression oracle of [test_synchrony] *)

Module TestSync.
Import Sync.
Local Open Scope Q_scope.

(** The [(method, spec_method, result)] table of
    [@pytest.mark.parametrize] over [test_synchrony]: the expected mean
    synchrony and mean phase difference on the [oscillation_pair] fixture. *)
Definition result (m : method) (s : spec_method) : Q * Q :=
match m, s with
| Coherence, Wavelet    => (2475 # 10000, 4795 # 10000)
| Coherence, Multitaper => (1046 # 10000, 3043 # 10000)
| Coherence, Bandfilter => (3490 # 10000, 6706 # 10000)
| PLV, Wavelet          => (2541 # 10000, 3713 # 10000)
| PLV, Multitaper       => (984 # 10000, 2228 # 10000)
| PLV, Bandfilter       => (3321 # 10000, 4528 # 10000)
| PPC, Wavelet          => (912 # 10000, 3713 # 10000)
| PPC, Multitaper       => (100 # 10000, 2228 # 10000)
| PPC, Bandfilter       => (1715 # 10000, 4528 # 10000)
end.

(** [np.isclose(a, b, rtol, atol)]: [|a - b| <= atol + rtol * |b|]. *)
Definition isclose (a b rtol atol : Q) : bool :=
Qle_bool (Qabs (a - b)) (atol + rtol * Qabs b).


(** [assert np.isclose(sync.mean(), result[0], rtol=1e-4, atol=1e-4)] *)
Definition assert_sync_mean (m : method) (s : spec_method) (sync_mean : Q)
  : bool :=
isclose sync_mean (fst (result m s)) (1 # 10000) (1 # 10000).

(** The keyword arguments the tests pass to the two entry points beyond
    their named parameters, and the one they expect to be refused. *)
Definition keywords_passed : list string :=
["smp_rate"; "timepts"; "width"; "time_width"; "spacing"; "freq_width"]%string.
Definition keyword_refused : string := "foo"%string.

End TestSync.

(** * Concrete cells and representations used below *)

Module Inputs.
Import Num NumPy Sync.
Local Open Scope R_scope.

(** One trial, both signals equal to 1. *)
Definition one_trial : list (C * C) := [((1, 0), (1, 0))].

(** One trial in which signal 1 vanishes and signal 2 does not. *)
Definition half_zero : list (C * C) := [((0, 0), (1, 0))].

(** Two trials whose spectral values all vanish. *)
Definition all_zero : list (C * C) := [((0, 0), (0, 0)); ((0, 0), (0, 0))].

(** Two trials with opposite phase differences 0 and pi. *)
Definition opposed : list (C * C) :=
  [((1, 0), (1, 0)); ((1, 0), (-1, 0))].

(** One trial with phase difference pi. *)
Definition antiphase : list (C * C) := [((-1, 0), (1, 0))].

(** One trial with phase difference pi/2. *)
Definition quadrature : list (C * C) := [((0, 1), (1, 0))].


(** A complex vector over the trial axis, and the two signals whose
    trial-wise spectral values are the pairs [zs]. *)
Definition spectrum (z : list C) : array := AComplex (NDArray [length z] z).
Definition signal_1 (zs : list (C * C)) : array := spectrum (map fst zs).
Definition signal_2 (zs : list (C * C)) : array := spectrum (map snd zs).


(** The call of [test_synchrony] that must raise: PLV on wavelet spectra
    with the keyword [foo]. *)
Definition args_with_foo : sync_args :=
  SyncArgs 0 "PLV" "wavelet" true (-1) None
           [("smp_rate"%string, PInt 1000); (TestSync.keyword_refused, PNone)].


End Inputs.

Module ReshapeInputs.
Import NumPy.
Definition y234 : ndarray Z := NDArray [2; 3; 4] (map Z.of_nat (seq 0 24)).
End ReshapeInputs.

(** * randstats/sampling.py: the jackknife generator *)

Module Sampling.

(** [np.arange(n)] and [range(n)] for an int [n]: empty when [n <= 0]. *)
Definition arange (n : Z) : list Z := map Z.of_nat (seq 0 (Z.to_nat n)).
Definition range (n : Z) : list Z := map Z.of_nat (seq 0 (Z.to_nat n)).

(** [trials != trial]: the elementwise comparison of an int array with an
    int. *)
Definition ne_mask (trials : list Z) (trial : Z) : list bool :=
  map (fun t => negb (t =? trial)%Z) trials.

(** [jackknifes(n, n_resamples=None, seed=None)], read as the list of the
    arrays the generator yields when it is iterated to its end; [None]
    stands for the AssertionError of its first line. [seed] is not used. *)
Definition jackknifes (n : Z) (n_resamples : option Z) (seed : option Z)
  : option (list (list bool)) :=
  if match n_resamples with None => true | Some k => (k =? n)%Z end
  then let trials := arange n in
       Some (map (fun trial => ne_mask trials trial) (range n))
  else None.

(** [mask.sum()] of a boolean array: how many entries are True. *)
Definition count_true (mask : list bool) : nat :=
  length (List.filter (fun b : bool => b) mask).

End Sampling.

(** * neural_info.py: order-preserving unique *)

Module Unique.

(** [np.sort] of an int array. *)
Definition np_sort (l : list Z) : list Z := merge_sort Z.le l.
Definition np_sort_idx (l : list nat) : list nat := merge_sort le l.

(** One entry kept of every run of equal neighbours: numpy's
    [aux[1:] != aux[:-1]] mask on the sorted array. *)
Fixpoint drop_repeats (l : list Z) : list Z :=
  match l with
  | [] => []
  | a :: l' =>
      match l' with
      | [] => [a]
      | b :: _ => if (a =? b)%Z then drop_repeats l' else a :: drop_repeats l'
      end
  end.

(** The position at which [v] first occurs in [x]. *)
Fixpoint index_of (v : Z) (x : list Z) : nat :=
  match x with
  | [] => 0
  | a :: x' => if (a =? v)%Z then 0 else S (index_of v x')
  end.

(** [np.unique(x, return_index=True)] on a one-dimensional int array: the
    sorted distinct values, and for each the index of its first occurrence
    in [x]. *)
Definition np_unique (x : list Z) : list Z := drop_repeats (np_sort x).
Definition np_unique_index (x : list Z) : list Z * list nat :=
  let u := np_unique x in (u, map (fun v => index_of v x) u).

(** [x[idxs]] with an array of indices; an index out of range raises
    IndexError. *)
Definition take (x : list Z) (idxs : list nat) : option (list Z) :=
  mapM (fun i => nth_error x i) idxs.

Definition _unsorted_unique (x : list Z) : option (list Z) :=
  let idxs := snd (np_unique_index x) in
  take x (np_sort_idx idxs).

(** What the docstring promises: the elements of [x] in the order in which
    they are first found, each one once. *)
Fixpoint first_seen (x : list Z) : list Z :=
  match x with
  | [] => []
  | a :: x' => a :: List.filter (fun b => negb (b =? a)%Z) (first_seen x')
  end.

(** The positions of [x] that hold a value not seen before them. *)
Definition first_positions (x : list Z) : list nat :=
  List.filter (fun i => index_of (nth i x 0%Z) x =? i) (seq 0 (length x)).

End Unique.

(** * neural_info.py: the one-way ANOVA model and the dispatch to it *)

Module Info.
Import NumPy NeuralInfo Num Anova Unique.
Local Open Scope R_scope.

#[export] Instance R_inhabited : Inhabited R := populate 0.
#[export] Instance fval_inhabited : Inhabited fval := populate NaN.

(** Column [j] of an (n_obs, n_series) matrix: one data series, [y[:,j]]. *)
Definition column (y : ndarray R) (n_obs j : nat) : list R :=
  map (fun i => get y [i; j]) (seq 0 n_obs).

(** [group_idxs = X == group] for a vector of labels, [group_idxs.sum()],
    and [y[group_idxs,:]] read on one data series. *)
Definition group_idxs (X : list Z) (group : Z) : list bool :=
  map (fun x => (x =? group)%Z) X.

Definition mask_sum (m : list bool) : nat :=
  length (List.filter (fun b : bool => b) m).

Definition select (m : list bool) (col : list R) : list R :=
  map snd (List.filter (fun p : bool * R => fst p) (combine m col)).

(** [gm_method]: the two names [anova1] knows.  With any other value no
    branch binds [grand_mean] and its first use raises. *)
Inductive gm := MeanOfObs | MeanOfMeans.

Definition parse_gm_method (s : string) : option gm :=
  if String.eqb s "mean_of_obs" then Some MeanOfObs
  else if String.eqb s "mean_of_means" then Some MeanOfMeans
  else None.

Definition sq (x : R) : R := x * x.

(** [((y - grand_mean)**2).sum(axis=0)] on one data series. *)
Definition SS_total_of (grand_mean : R) (col : list R) : R :=
  Rsum (map (fun v => sq (v - grand_mean)) col).

(** The accumulation [SS_groups += n[i_group]*(mu[i_group,:] - grand_mean)**2]
    on one data series. *)
Definition SS_groups_of (grand_mean : R) (n : list nat) (mu : list R) : R :=
  Rsum (map (fun p : nat * R => INR (fst p) * sq (snd p - grand_mean))
            (combine n mu)).

(** Group sizes [n], group means [mu] and grand mean of one data series.
    The means are consumed only inside sums over the observations or over
    the groups, which are empty when there is nothing to average. *)
Definition group_n (X : list Z) (groups : list Z) : list nat :=
  map (fun group => mask_sum (group_idxs X group)) groups.

Definition group_mu (X : list Z) (groups : list Z) (col : list R) : list R :=
  map (fun group => Rmean (select (group_idxs X group) col)) groups.

Definition grand_mean_of (g : gm) (mu col : list R) : R :=
  match g with
  | MeanOfObs => Rmean col
  | MeanOfMeans => Rmean mu
  end.

(** The pair (SS_groups, SS_total) of one data series. *)
Definition series_SS (g : gm) (X groups : list Z) (col : list R) : R * R :=
  let n := group_n X groups in
  let mu := group_mu X groups col in
  let grand_mean := grand_mean_of g mu col in
  (SS_groups_of grand_mean n mu, SS_total_of grand_mean col).

(** The first assertion on the design matrix, [(X.ndim == 1) or
    (X.shape[1] == 1)]; [X.shape[1]] of a 0-d array raises. *)
Definition single_column (X : ndarray Z) : option bool :=
  if (ndim X =? 1)%nat then Some true
  else k ← nth_error (shape X) 1; Some (k =? 1)%nat.

(** [anova1(X, y, axis, omega, gm_method, as_pct, return_stats=False)] on
    integer group labels and real data.  [None] stands for any exception
    ([return_stats=True] needs SciPy's F distribution and is left out).
    Inside the loop over the groups
    [y[group_idxs,:]] indexes the two-dimensional [y] with the mask
    [X == group], which has the dimensions of [X]: a mask of two or more
    dimensions followed by a slice addresses more than two axes and
    raises IndexError. *)
Definition anova1 (X : ndarray Z) (y : array_obj R) (axis : Z) (omega : bool)
           (gm_method : string) (as_pct : bool) : option (ndarray fval) :=
  r ← _reshape_data y axis;
  let y2 := fst r in
  let y_shape := snd r in
  match shape y2 with
  | [n_obs; n_series] =>
      c ← single_column X;
      if negb c then None else
      n0 ← nth_error (shape X) 0;
      if negb (n0 =? n_obs)%nat then None else
      let groups := np_unique (elems X) in
      let n_groups := length groups in
      if negb (ndim X =? 1)%nat && negb (n_groups =? 0)%nat then None else
      g ← parse_gm_method gm_method;
      let SS := map (fun j => series_SS g (elems X) groups (column y2 n_obs j))
                    (seq 0 n_series) in
      exp_var ← anova1_exp_var omega as_pct (Z.of_nat n_obs) (Z.of_nat n_groups)
                               (map fst SS) (map snd SS);
      _unreshape_data (NDArray [1%nat; n_series] exp_var) y_shape axis
  | _ => None
  end.

(** The explained variance [anova1] reports for one data series with the
    omega-squared formula, from its sums of squares. *)
Definition anova1_cell (as_pct : bool) (n_obs n_groups : Z) (SS : R * R) : fval :=
  let SS_groups := fst SS in
  let SS_total := snd SS in
  let df_groups := (n_groups - 1)%Z in
  let df_error := (n_obs - 1 - df_groups)%Z in
  let MS_error := fdiv (Fin (SS_total - SS_groups)) (Fin (IZR df_error)) in
  let exp_var :=
    if is_zero SS_total then Fin 0
    else omega_squared SS_groups SS_total MS_error df_groups in
  if as_pct then fmul (Fin 100) exp_var else exp_var.


(** [str.lower()] on ASCII text. *)
Definition lower_ascii (c : Ascii.ascii) : Ascii.ascii :=
  let n := Ascii.nat_of_ascii c in
  if ((65 <=? n) && (n <=? 90))%nat then Ascii.ascii_of_nat (n + 32) else c.

Fixpoint lower (s : string) : string :=
  match s with
  | EmptyString => EmptyString
  | String c s' => String (lower_ascii c) (lower s')
  end.

(** [(X == 1).all(axis=0).any()] for a design matrix of two or more
    dimensions: some column holds nothing but ones. *)
Definition has_constant_column (X : ndarray Z) : bool :=
  match shape X with
  | [] => false
  | n0 :: rest =>
      existsb (fun k => forallb (fun i => (get X (i :: unravel_C rest k) =? 1)%Z)
                                (seq 0 n0))
              (seq 0 (prod rest))
  end.

(** The model [pev] infers from [X] when [model] is None; [None] is the
    ValueError "Could not determine appropriate linear model" (or the
    IndexError of [X.shape[1]] on a 0-d array). *)
Definition infer_model (X : ndarray Z) : option string :=
  c ← single_column X;
  if (c : bool) then Some "anova1"%string
  else if has_constant_column X then Some "regress"%string
  else None.

Section Dispatch.
(** [anova2] and [regress] with the arguments [pev] passes to them; the
    first is not embedded, the second rests on scikit-learn. *)
Variable anova2 regress :
  ndarray Z -> array_obj R -> Z -> bool -> option (ndarray fval).

(** [pev(X, y, axis, model, as_pct, return_stats=False)] called without
    further keyword arguments, so that [anova1] runs with its defaults
    [omega=True], [gm_method='mean_of_obs'].  The message printed when the
    model is inferred is left out. *)
Definition pev (X : ndarray Z) (y : array_obj R) (axis : Z)
           (model : option string) (as_pct : bool) : option (ndarray fval) :=
  match (match model with
         | None => infer_model X
         | Some name => Some name
         end) with
  | None => None
  | Some name =>
      let m := lower name in
      if String.eqb m "anova1" then anova1 X y axis true "mean_of_obs" as_pct
      else if String.eqb m "anova2" then anova2 X y axis as_pct
      else if String.eqb m "regress" then regress X y axis as_pct
      else None
  end.

End Dispatch.

End Info.

Module InfoInputs.
Import NumPy NeuralInfo.
Local Open Scope R_scope.

Definition data : array_obj R :=
  ArrayObj (NDArray [6%nat; 2%nat] [1; 5; 2; 5; 3; 5; 5; 5; 6; 5; 7; 5]) true.
Definition column_labels : ndarray Z :=
  NDArray [6%nat; 1%nat] [0; 0; 0; 1; 1; 1]%Z.
End InfoInputs.

(** * Part II: properties *)

Module NumPyFacts.
Import NumPy.

Lemma in_bounds_length idx s : in_bounds idx s -> length idx = length s.
Proof. apply Forall2_length. Qed.

Lemma ravel_C_lt s : forall idx, in_bounds idx s -> ravel_C s idx < prod s.
Proof.
  induction s as [|n s IH]; intros idx Hb; inversion Hb; subst; simpl.
  - lia.
  - specialize (IH _ H3). nia.
Qed.

Lemma unravel_ravel_C s :
  forall idx, in_bounds idx s -> unravel_C s (ravel_C s idx) = idx.
Proof.
  induction s as [|n s IH]; intros idx Hb;
    inversion Hb as [|i m idx' s' Hi Hrest]; subst; simpl.
  - reflexivity.
  - pose proof (ravel_C_lt _ _ Hrest) as Hlt.
    assert (Hp : prod s <> 0) by lia.
    rewrite Nat.div_add_l by exact Hp.
    rewrite Nat.div_small by exact Hlt.
    rewrite (Nat.add_comm (i * prod s)), Nat.Div0.mod_add.
    rewrite Nat.mod_small by exact Hlt.
    rewrite IH by exact Hrest. f_equal. lia.
Qed.

Lemma unravel_C_in_bounds s : forall k, k < prod s -> in_bounds (unravel_C s k) s.
Proof.
  induction s as [|n s IH]; intros k Hk; simpl in *.
  - constructor.
  - assert (Hp : prod s <> 0) by nia.
    constructor.
    + apply Nat.Div0.div_lt_upper_bound. lia.
    + apply IH. apply Nat.mod_upper_bound. exact Hp.
Qed.

Lemma ravel_unravel_C s : forall k, k < prod s -> ravel_C s (unravel_C s k) = k.
Proof.
  induction s as [|n s IH]; intros k Hk; simpl in *.
  - lia.
  - assert (Hp : prod s <> 0) by nia.
    rewrite IH by (apply Nat.mod_upper_bound; exact Hp).
    pose proof (Nat.div_mod_eq k (prod s)). lia.
Qed.

Lemma ravel_F_lt s : forall idx, in_bounds idx s -> ravel_F s idx < prod s.
Proof.
  induction s as [|n s IH]; intros idx Hb; inversion Hb; subst; simpl.
  - lia.
  - specialize (IH _ H3). nia.
Qed.

Lemma unravel_ravel_F s :
  forall idx, in_bounds idx s -> unravel_F s (ravel_F s idx) = idx.
Proof.
  induction s as [|n s IH]; intros idx Hb;
    inversion Hb as [|i m idx' s' Hi Hrest]; subst; simpl.
  - reflexivity.
  - assert (Hn : n <> 0) by lia.
    rewrite (Nat.mul_comm n), Nat.Div0.mod_add.
    rewrite Nat.mod_small by exact Hi.
    rewrite Nat.div_add by exact Hn.
    rewrite Nat.div_small by exact Hi. simpl.
    rewrite IH by exact Hrest. reflexivity.
Qed.

Lemma unravel_F_in_bounds s : forall k, k < prod s -> in_bounds (unravel_F s k) s.
Proof.
  induction s as [|n s IH]; intros k Hk; simpl in *.
  - constructor.
  - assert (Hn : n <> 0) by nia.
    constructor.
    + apply Nat.mod_upper_bound. exact Hn.
    + apply IH. apply Nat.Div0.div_lt_upper_bound. lia.
Qed.

Lemma ravel_unravel_F s : forall k, k < prod s -> ravel_F s (unravel_F s k) = k.
Proof.
  induction s as [|n s IH]; intros k Hk; simpl in *.
  - lia.
  - assert (Hn : n <> 0) by nia.
    rewrite IH by (apply Nat.Div0.div_lt_upper_bound; lia).
    pose proof (Nat.div_mod_eq k n). lia.
Qed.

(** ** Moving one item of a list *)

Lemma move_item_to_front {B} a (l : list B) x :
  insert_at 0 x (remove_at a l) = x :: remove_at a l.
Proof. reflexivity. Qed.

Lemma insert_remove_at a (l : list nat) :
  a < length l -> insert_at a (nth a l 0) (remove_at a l) = l.
Proof.
  unfold insert_at, remove_at. revert a.
  induction l as [|x l IH]; intros [|a] Ha; simpl in *; try lia.
  - reflexivity.
  - f_equal. apply IH. lia.
Qed.

Lemma move_item_roundtrip a (l : list nat) :
  a < length l -> move_item 0 a (move_item a 0 l) = l.
Proof.
  intros Ha. unfold move_item at 2. rewrite move_item_to_front.
  unfold move_item; simpl. change (remove_at 0 (nth a l 0 :: remove_at a l))
    with (remove_at a l).
  now apply insert_remove_at.
Qed.

Lemma move_item_0_0 (l : list nat) : l <> [] -> move_item 0 0 l = l.
Proof. destruct l; [congruence | reflexivity]. Qed.

Lemma in_bounds_nth a idx s :
  in_bounds idx s -> a < length s -> nth a idx 0 < nth a s 0.
Proof.
  intros Hb. revert a.
  induction Hb as [|i n idx s Hi Hb IH]; intros [|a] Ha; simpl in *;
    try lia.
  apply IH. lia.
Qed.

Lemma in_bounds_remove_at a idx s :
  in_bounds idx s -> in_bounds (remove_at a idx) (remove_at a s).
Proof.
  intros Hb. revert a. unfold remove_at.
  induction Hb as [|i n idx s Hi Hb IH]; intros [|a]; simpl.
  - constructor.
  - constructor.
  - exact Hb.
  - constructor; [exact Hi | apply IH].
Qed.

Lemma in_bounds_move_front a idx s :
  in_bounds idx s -> a < length s ->
  in_bounds (move_item a 0 idx) (move_item a 0 s).
Proof.
  intros Hb Ha. unfold move_item. rewrite !move_item_to_front.
  constructor.
  - now apply in_bounds_nth.
  - now apply in_bounds_remove_at.
Qed.

Lemma mask_ne_keep (l : list nat) k t :
  t < k ->
  map snd (List.filter (fun p : nat * nat => negb (Z.of_nat (fst p) =? Z.of_nat t)%Z)
                       (combine (seq k (length l)) l)) = l.
Proof.
  revert k. induction l as [|x l IH]; intros k Hk; simpl.
  - reflexivity.
  - destruct (Z.eqb_spec (Z.of_nat k) (Z.of_nat t)); [lia|]. simpl.
    f_equal. apply IH. lia.
Qed.

Lemma mask_ne_shift (l : list nat) k a :
  map snd (List.filter (fun p : nat * nat => negb (Z.of_nat (fst p) =? Z.of_nat (k + a))%Z)
                       (combine (seq k (length l)) l)) = remove_at a l.
Proof.
  revert k a. induction l as [|x l IH]; intros k a; simpl.
  - unfold remove_at. now rewrite firstn_nil, skipn_nil.
  - destruct (Z.eqb_spec (Z.of_nat k) (Z.of_nat (k + a))) as [E|E]; simpl.
    + assert (a = 0) by lia. subst a. rewrite Nat.add_0_r.
      unfold remove_at; simpl. apply mask_ne_keep. lia.
    + destruct a as [|a]; [lia|].
      replace (k + S a) with (S k + a) by lia.
      rewrite IH. reflexivity.
Qed.

Lemma mask_ne_remove_at (l : list nat) a :
  mask_ne l (Z.of_nat a) = remove_at a l.
Proof. apply (mask_ne_shift l 0 a). Qed.

Lemma prod_app s t : prod (s ++ t) = prod s * prod t.
Proof. induction s; simpl; [lia | rewrite IHs; lia]. Qed.

Lemma prod_move_front a s :
  a < length s -> nth a s 0 * prod (remove_at a s) = prod s.
Proof.
  unfold remove_at. revert a.
  induction s as [|n s IH]; intros [|a] Ha; simpl in *; try lia.
  - now rewrite skipn_O.
  - specialize (IH a ltac:(lia)). nia.
Qed.

Lemma normalize_axis_index_spec axis nd :
  (- Z.of_nat nd <= axis < Z.of_nat nd)%Z ->
  exists a, normalize_axis_index axis nd = Some a /\ a < nd /\
            Z.of_nat a = (if (axis <? 0)%Z then Z.of_nat nd + axis else axis)%Z.
Proof.
  intros Hr. unfold normalize_axis_index.
  destruct (Z.leb_spec (- Z.of_nat nd) axis); [|lia].
  destruct (Z.ltb_spec axis (Z.of_nat nd)); [|lia]. simpl.
  eexists; split; [reflexivity|].
  destruct (Z.ltb_spec axis 0); split; lia.
Qed.

Lemma normalize_axis_index_nat a nd :
  a < nd -> normalize_axis_index (Z.of_nat a) nd = Some a.
Proof.
  intros Ha. unfold normalize_axis_index.
  destruct (Z.leb_spec (- Z.of_nat nd) (Z.of_nat a)); [|lia].
  destruct (Z.ltb_spec (Z.of_nat a) (Z.of_nat nd)); [|lia]. simpl.
  destruct (Z.ltb_spec (Z.of_nat a) 0); [lia|]. now rewrite Nat2Z.id.
Qed.

Section Elements.
Context {A : Type} `{Inhabited A}.

Lemma wf_build s (f : list nat -> A) : wf (build s f).
Proof. unfold wf, build; simpl. now rewrite length_map, length_seq. Qed.

Lemma get_build s (f : list nat -> A) idx :
  in_bounds idx s -> get (build s f) idx = f idx.
Proof.
  intros Hb. unfold get, build; simpl.
  pose proof (ravel_C_lt _ _ Hb) as Hlt.
  rewrite (nth_indep _ _ (f (unravel_C s 0)))
    by now rewrite length_map, length_seq.
  rewrite (map_nth (fun k => f (unravel_C s k)) (seq 0 (prod s)) 0).
  rewrite seq_nth by exact Hlt. simpl.
  now rewrite unravel_ravel_C.
Qed.

Lemma build_ext s (f g : list nat -> A) :
  (forall idx, in_bounds idx s -> f idx = g idx) -> build s f = build s g.
Proof.
  intros Hfg. unfold build. f_equal.
  apply map_ext_in. intros k Hk. apply in_seq in Hk.
  apply Hfg, unravel_C_in_bounds. lia.
Qed.

Lemma map_nth_seq (l : list A) d :
  map (fun k => nth k l d) (seq 0 (length l)) = l.
Proof.
  apply nth_ext with (d := d) (d' := d).
  - now rewrite length_map, length_seq.
  - intros k Hk. rewrite length_map, length_seq in Hk.
    rewrite (nth_indep _ _ (nth 0 l d))
      by now rewrite length_map, length_seq.
    rewrite (map_nth (fun k => nth k l d)).
    now rewrite seq_nth.
Qed.

Lemma build_get (a : ndarray A) : wf a -> build (shape a) (get a) = a.
Proof.
  destruct a as [s l]. unfold wf, build, get; simpl. intros Hwf.
  f_equal. rewrite <- Hwf.
  rewrite <- (map_nth_seq l inhabitant) at 2.
  apply map_ext_in. intros k Hk. apply in_seq in Hk.
  now rewrite ravel_unravel_C by lia.
Qed.

(** Two well-formed arrays of one shape that agree cell by cell are
    the same array. *)
Lemma ndarray_ext (a b : ndarray A) :
  wf a -> wf b -> shape a = shape b ->
  (forall idx, in_bounds idx (shape a) -> get a idx = get b idx) ->
  a = b.
Proof.
  intros Ha Hb Hs Hg.
  rewrite <- (build_get a Ha), <- (build_get b Hb), <- Hs.
  now apply build_ext.
Qed.

Lemma move_axis_0_0 (a : ndarray A) :
  wf a -> shape a <> [] -> move_axis a 0 0 = a.
Proof.
  intros Hwf Hne. unfold move_axis.
  rewrite move_item_0_0 by exact Hne.
  transitivity (build (shape a) (get a)); [|now apply build_get].
  apply build_ext. intros idx Hb.
  rewrite move_item_0_0; [reflexivity|].
  apply in_bounds_length in Hb. destruct idx, (shape a); simpl in *;
    congruence.
Qed.

Lemma move_axis_roundtrip (y : ndarray A) a :
  wf y -> a < ndim y -> move_axis (move_axis y a 0) 0 a = y.
Proof.
  intros Hwf Ha. unfold ndim in Ha.
  apply ndarray_ext; [apply wf_build | exact Hwf | |].
  - simpl. now apply move_item_roundtrip.
  - simpl. rewrite move_item_roundtrip by exact Ha. intros idx Hb.
    unfold move_axis at 1.
    rewrite get_build by (simpl; now rewrite move_item_roundtrip).
    unfold move_axis.
    rewrite get_build by now apply in_bounds_move_front.
    rewrite move_item_roundtrip; [reflexivity|].
    now rewrite (in_bounds_length _ _ Hb).
Qed.

(** Reading an array out column-major into another shape and back is
    the identity. *)
Lemma reshape_F_roundtrip (x : ndarray A) s' :
  wf x -> prod s' = prod (shape x) ->
  build (shape x)
        (fun idx =>
           get (build s' (fun idx' =>
                            get x (unravel_F (shape x) (ravel_F s' idx'))))
               (unravel_F s' (ravel_F (shape x) idx))) = x.
Proof.
  intros Hwf Hp.
  transitivity (build (shape x) (get x)); [|now apply build_get].
  apply build_ext. intros idx Hb.
  pose proof (ravel_F_lt _ _ Hb) as Hlt.
  rewrite get_build by (apply unravel_F_in_bounds; lia).
  rewrite ravel_unravel_F by lia.
  now rewrite unravel_ravel_F.
Qed.
End Elements.
End NumPyFacts.

Module NeuralInfoFacts.
Import NumPy NumPyFacts NeuralInfo.

Lemma invert_bool_values b :
  Py.invert (Py.int_of_bool b) = (-2)%Z \/ Py.invert (Py.int_of_bool b) = (-1)%Z.
Proof. destruct b; [left | right]; reflexivity. Qed.

Lemma invert_bool_truthy b : Py.truthy (Py.invert (Py.int_of_bool b)) = true.
Proof. destruct b; reflexivity. Qed.

Section Reshaping.
Context {A : Type} `{Inhabited A}.

Lemma resolve_shape_infer n rest :
  n <> 0 ->
  resolve_shape (n * prod rest) [Z.of_nat n; (-1)%Z] = Some [n; prod rest].
Proof.
  intros Hn. unfold resolve_shape. simpl.
  destruct (Z.ltb_spec (Z.of_nat n) (-1)%Z); [lia|]. simpl.
  destruct (Z.eq_dec (Z.of_nat n) (-1)%Z); [lia|].
  unfold known_prod; simpl.
  destruct (Z.eqb_spec (Z.of_nat n) (-1)%Z); [lia|].
  rewrite Nat2Z.id, Nat.mul_1_r.
  destruct (Nat.eqb_spec n 0); [lia|]. simpl.
  rewrite Nat.mul_comm, Nat.Div0.mod_mul. simpl.
  now rewrite Nat.div_mul by exact Hn.
Qed.

Lemma resolve_shape_exact s :
  resolve_shape (prod s) (map Z.of_nat s) = Some s.
Proof.
  unfold resolve_shape.
  assert (E1 : existsb (fun d => (d <? -1)%Z) (map Z.of_nat s) = false).
  { induction s; simpl; [reflexivity|]. rewrite IHs.
    destruct (Z.ltb_spec (Z.of_nat a) (-1)%Z); [lia | reflexivity]. }
  assert (E2 : count_occ Z.eq_dec (map Z.of_nat s) (-1)%Z = 0).
  { clear E1. induction s; simpl; [reflexivity|].
    destruct (Z.eq_dec (Z.of_nat a) (-1)%Z); [lia | exact IHs]. }
  assert (E3 : map Z.to_nat (map Z.of_nat s) = s).
  { rewrite map_map. rewrite <- (map_id s) at 2.
    apply map_ext. intros. apply Nat2Z.id. }
  rewrite E1, E2, E3. now rewrite Nat.eqb_refl.
Qed.

(** What the reachable branch computes for a valid axis. *)
Lemma reshape_moveaxis_first_eq (y : ndarray A) axis a :
  wf y -> normalize_axis_index axis (ndim y) = Some a -> a < ndim y ->
  (if negb (axis =? 0)%Z then moveaxis y axis 0 else Some y)
  = Some (move_axis y a 0).
Proof.
  intros Hwf Hn Ha.
  destruct (Z.eqb_spec axis 0) as [->|Hne]; simpl.
  - unfold normalize_axis_index in Hn.
    destruct (_ && _) in Hn; [|discriminate]. simpl in Hn.
    injection Hn as <-. simpl.
    rewrite move_axis_0_0; [reflexivity | exact Hwf |].
    unfold ndim in Ha. destruct (shape y); simpl in *; [lia | congruence].
  - unfold moveaxis. rewrite Hn. simpl.
    rewrite (normalize_axis_index_nat 0) by lia. reflexivity.
Qed.

Local Arguments Z.add _ _ : simpl never.
Local Arguments Z.of_nat _ : simpl never.
Local Arguments Z.ltb _ _ : simpl never.
Local Arguments Z.eqb _ _ : simpl never.

(** General round trip: it holds away from the one-element vector and
    from an empty observation axis under three or more dimensions. *)
Theorem reshape_unreshape_roundtrip (y : array_obj A) (axis : Z) :
  wf (array_value y) ->
  (- Z.of_nat (ndim (array_value y)) <= axis
   < Z.of_nat (ndim (array_value y)))%Z ->
  shape (array_value y) <> [1] ->
  (2 < ndim (array_value y) ->
   tuple_index (shape (array_value y)) axis <> Some 0) ->
  exists r,
    _reshape_data y axis = Some (r, shape (array_value y)) /\
    _unreshape_data r (shape (array_value y)) axis = Some (array_value y).
Proof.
  destruct y as [[s l] b]; unfold ndim; simpl.
  intros Hwf Hax Hne1 Hne0.
  set (v := NDArray s l) in *.
  destruct (normalize_axis_index_spec _ _ Hax) as (a & Hn & Ha & Haz).
  pose proof (reshape_moveaxis_first_eq v axis a Hwf Hn Ha) as Hmv.
  assert (Hti : tuple_index s axis = Some (nth a s 0)).
  { unfold tuple_index. rewrite Hn. simpl. now apply nth_error_nth'. }
  assert (Hnonempty : s <> []) by (destruct s; simpl in *; [lia|congruence]).
  pose (y1 := move_axis v a 0).
  assert (Hs1 : shape y1 = nth a s 0 :: remove_at a s) by reflexivity.
  assert (Hwf1 : wf y1) by apply wf_build.
  assert (Hback : (if negb ((if (axis <? 0)%Z
                             then (Z.of_nat (length s) + axis)%Z
                             else axis) =? 0)%Z
                   then moveaxis y1 0 (if (axis <? 0)%Z
                                       then (Z.of_nat (length s) + axis)%Z
                                       else axis)
                   else Some y1) = Some v).
  { rewrite <- Haz.
    destruct (Z.eqb_spec (Z.of_nat a) 0) as [E|E]; simpl.
    - assert (a = 0) by lia. subst a. f_equal.
      now apply move_axis_0_0.
    - unfold moveaxis.
      assert (Hnd : ndim y1 = length s).
      { unfold ndim. rewrite Hs1. simpl. unfold remove_at.
        rewrite length_app, length_firstn, length_skipn. lia. }
      rewrite Hnd.
      rewrite (normalize_axis_index_nat 0) by lia. simpl.
      rewrite (normalize_axis_index_nat a) by lia. simpl.
      f_equal. now apply move_axis_roundtrip. }
  unfold _reshape_data, reshape_moveaxis_first; simpl.
  rewrite invert_bool_truthy, Hmv. simpl. fold y1.
  destruct (Nat.ltb_spec 2 (length s)) as [H3|H3].
  - (* three or more dimensions: column-major flattening *)
    rewrite Hti. simpl.
    assert (Hn0 : nth a s 0 <> 0).
    { intros E. apply Hne0; [exact H3|]. rewrite Hti. now f_equal. }
    unfold reshape, size. rewrite Hs1. simpl prod.
    rewrite resolve_shape_infer by exact Hn0. simpl.
    destruct (Nat.eqb_spec (length s) 1); [lia|].
    eexists; split; [reflexivity|].
    unfold _unreshape_data. simpl.
    destruct (Nat.ltb_spec 2 (length s)); [|lia].
    unfold reshape, size. simpl shape.
    rewrite <- Haz at 1. rewrite mask_ne_remove_at.
    replace (prod [nth a s 0; prod (remove_at a s)])
      with (prod (nth a s 0 :: remove_at a s)) by (simpl; lia).
    rewrite resolve_shape_exact. simpl.
    rewrite <- Hs1.
    rewrite (reshape_F_roundtrip y1 [nth a s 0; prod (remove_at a s)] Hwf1)
      by (rewrite Hs1; simpl; lia).
    exact Hback.
  - simpl.
    destruct (Nat.eqb_spec (length s) 1) as [E1|E1].
    + (* a vector: a unit axis appended, then squeezed away *)
      destruct s as [|n [|? ?]]; simpl in E1; try lia.
      assert (a = 0) by (simpl in Ha; lia). subst a.
      unfold newaxis_1. rewrite Hs1. simpl.
      eexists; split; [reflexivity|].
      unfold _unreshape_data. simpl.
      unfold squeeze. simpl.
      destruct (Nat.eqb_spec n 1) as [->|Hn1]; [congruence|]. simpl.
      exact Hback.
    + (* a matrix: only the axis is permuted *)
      eexists; split; [reflexivity|].
      unfold _unreshape_data. simpl.
      destruct (Nat.ltb_spec 2 (length s)); [lia|].
      destruct (Nat.eqb_spec (length s) 1); [lia|].
      exact Hback.
Qed.
End Reshaping.
End NeuralInfoFacts.

(** ** The guard of [_reshape_data] and the one-element vector *)

Module ReshapeClaims.
Import NumPy NumPyFacts NeuralInfo NeuralInfoFacts ReshapeInputs.

(** The two branches of [_reshape_data] are different computations: on a
    2 x 3 x 4 array with the observations on axis 1 they order the series
    differently. *)
Example branches_differ :
  reshape_moveaxis_first y234 1 <> reshape_moveaxis_last y234 1.
Proof. vm_compute. discriminate. Qed.

(** C10. Whatever the memory layout of the input, [~data.flags.c_contiguous]
    is -2 or -1, hence truthy, so [_reshape_data] runs the moveaxis-to-0 /
    order='F' branch; the "faster" branch is never taken and the result
    does not depend on the contiguity flag. *)
Theorem reshape_data_always_first_branch :
  forall (A : Type) (HA : Inhabited A) (data : array_obj A) (axis : Z),
    (Py.invert (Py.int_of_bool (flags_c_contiguous data)) = (-2)%Z \/
     Py.invert (Py.int_of_bool (flags_c_contiguous data)) = (-1)%Z) /\
    Py.truthy (Py.invert (Py.int_of_bool (flags_c_contiguous data))) = true /\
    _reshape_data data axis =
      (d ← reshape_moveaxis_first (array_value data) axis;
       d' ← (if length (shape (array_value data)) =? 1
             then newaxis_1 d else Some d);
       Some (d', shape (array_value data))) /\
    (forall c : bool,
        _reshape_data (ArrayObj (array_value data) c) axis
        = _reshape_data data axis).
Proof.
  intros A HA data axis. split; [apply invert_bool_values|].
  split; [apply invert_bool_truthy|].
  split.
  - unfold _reshape_data. now rewrite invert_bool_truthy.
  - intros c. unfold _reshape_data. simpl.
    now rewrite !invert_bool_truthy.
Qed.

(** C9 at the input [np.array([5])], axis 0: [_reshape_data] returns the
    (1,1) matrix and [_unreshape_data] squeezes both unit axes away, so the
    composition returns a 0-d array, not the (1,) vector it was given. *)
Theorem roundtrip_one_element_vector :
  _reshape_data (ArrayObj (NDArray [1] [5%Z]) true) 0
    = Some (NDArray [1; 1] [5%Z], [1]) /\
  _unreshape_data (NDArray [1; 1] [5%Z]) [1] 0 = Some (NDArray [] [5%Z]) /\
  shape (NDArray [] [5%Z]) <> shape (NDArray [1] [5%Z]).
Proof. repeat split; try reflexivity. discriminate. Qed.

(** An empty observation axis under three dimensions: the inferred
    dimension of [reshape(..., (0, -1))] is undetermined and NumPy raises. *)
Example reshape_data_empty_axis_raises :
  _reshape_data (ArrayObj (NDArray [0; 2; 3] (@nil Z)) true) 0 = None.
Proof. reflexivity. Qed.
End ReshapeClaims.

Module NumFacts.
Import Num.
Local Open Scope R_scope.

Lemma is_zero_true x : is_zero x = true <-> x = 0.
Proof. unfold is_zero. destruct (Req_EM_T x 0); split; congruence. Qed.

Lemma is_zero_false x : is_zero x = false <-> x <> 0.
Proof. unfold is_zero. destruct (Req_EM_T x 0); split; congruence. Qed.

Lemma Cis_zero_true z : Cis_zero z = true <-> z = C0.
Proof.
  destruct z as [x y]. unfold Cis_zero, C0; simpl.
  rewrite andb_true_iff, !is_zero_true. split.
  - intros [-> ->]. reflexivity.
  - intros E. injection E as -> ->. split; reflexivity.
Qed.

Lemma fdiv_finite a b : b <> 0 -> fdiv (Fin a) (Fin b) = Fin (a / b).
Proof. intros Hb. simpl. apply is_zero_false in Hb. now rewrite Hb. Qed.

Lemma fdiv_0_0 : fdiv (Fin 0) (Fin 0) = NaN.
Proof.
  simpl. assert (E : is_zero 0 = true) by now apply is_zero_true.
  now rewrite E.
Qed.

(** ** Conjugation *)

Lemma Cconj_add z w : Cconj (Cadd z w) = Cadd (Cconj z) (Cconj w).
Proof. unfold Cconj, Cadd; simpl. f_equal. lra. Qed.

Lemma Cconj_scale a z : Cconj (Cscale a z) = Cscale a (Cconj z).
Proof. unfold Cconj, Cscale; simpl. f_equal. lra. Qed.

Lemma Cconj_sum l : Csum (map Cconj l) = Cconj (Csum l).
Proof.
  induction l as [|z l IH]; simpl.
  - unfold Cconj, C0; simpl. f_equal. lra.
  - now rewrite IH, Cconj_add.
Qed.

Lemma Cconj_mean l : Cmean (map Cconj l) = Cconj (Cmean l).
Proof. unfold Cmean. now rewrite length_map, Cconj_sum, Cconj_scale. Qed.

Lemma Cnorm2_conj z : Cnorm2 (Cconj z) = Cnorm2 z.
Proof. unfold Cnorm2, Cconj; simpl. lra. Qed.

Lemma Cabs_conj z : Cabs (Cconj z) = Cabs z.
Proof. unfold Cabs. now rewrite Cnorm2_conj. Qed.


Lemma cis_opp theta : cis (- theta) = Cconj (cis theta).
Proof. unfold cis, Cconj; simpl. now rewrite cos_neg, sin_neg. Qed.

Lemma cis_wrap theta : cis (wrap theta) = cis theta.
Proof.
  unfold wrap, cis.
  destruct (Rlt_dec PI theta); [|destruct (Rle_dec theta (- PI))].
  - unfold Rminus. rewrite cos_plus, sin_plus, cos_neg, sin_neg.
    rewrite cos_2PI, sin_2PI. f_equal; lra.
  - rewrite cos_plus, sin_plus, cos_2PI, sin_2PI. f_equal; lra.
  - reflexivity.
Qed.

(** The principal argument of the conjugate is the opposite one, except
    on the negative real axis, where both are [PI]. *)
Lemma Carg_conj z : Carg z <> PI -> Carg (Cconj z) = - Carg z.
Proof.
  destruct z as [x y]. unfold Carg, Cconj; simpl. intros Hne.
  assert (Hopp : atan (- y / x) = - atan (y / x)).
  { replace (- y / x) with (- (y / x)) by (unfold Rdiv; lra).
    apply atan_opp. }
  destruct (Rlt_dec 0 x); [exact Hopp|].
  destruct (Rlt_dec x 0).
  - destruct (Rle_dec 0 y) as [Hy|Hy].
    + destruct (Rle_dec 0 (- y)) as [Hy'|Hy'].
      * exfalso. apply Hne. assert (y = 0) by lra. subst y.
        unfold Rdiv. rewrite Rmult_0_l, atan_0. lra.
      * rewrite Hopp. lra.
    + destruct (Rle_dec 0 (- y)); [|lra]. rewrite Hopp. lra.
  - destruct (Rlt_dec 0 y).
    + destruct (Rlt_dec 0 (- y)); [lra|].
      destruct (Rlt_dec (- y) 0); [reflexivity | lra].
    + destruct (Rlt_dec y 0).
      * destruct (Rlt_dec 0 (- y)); [lra | lra].
      * destruct (Rlt_dec 0 (- y)); [lra|].
        destruct (Rlt_dec (- y) 0); lra.
Qed.

Lemma Carg_conj_PI z : Carg z = PI -> Carg (Cconj z) = PI.
Proof.
  destruct z as [x y]. unfold Carg, Cconj; simpl.
  pose proof (atan_bound (y / x)) as Hb. pose proof PI_RGT_0 as Hpi.
  destruct (Rlt_dec 0 x); [lra|].
  destruct (Rlt_dec x 0).
  - destruct (Rle_dec 0 y) as [Hy|Hy]; [|lra].
    intros E. assert (Ha : atan (y / x) = 0) by lra.
    apply atan_eq0 in Ha.
    assert (y = 0).
    { unfold Rdiv in Ha. apply Rmult_integral in Ha. destruct Ha as [|Ha];
        [assumption|]. exfalso. apply (Rinv_neq_0_compat x); lra. }
    subst y. destruct (Rle_dec 0 (- 0)); [|lra].
    replace (- 0 / x) with 0 by (unfold Rdiv; lra). rewrite atan_0. lra.
  - destruct (Rlt_dec 0 y); [lra|]. destruct (Rlt_dec y 0); lra.
Qed.

Lemma Cconj_mul z w : Cconj (Cmul z w) = Cmul (Cconj z) (Cconj w).
Proof. unfold Cmul, Cconj; simpl. f_equal; lra. Qed.

Lemma Cconj_involutive z : Cconj (Cconj z) = z.
Proof. destruct z. unfold Cconj; simpl. f_equal. lra. Qed.

Lemma cis_minus a b : cis (a - b) = Cmul (cis a) (Cconj (cis b)).
Proof.
  unfold cis, Cmul, Cconj; simpl. rewrite cos_minus, sin_minus.
  f_equal; lra.
Qed.

Lemma cis_Carg_conj z : cis (Carg (Cconj z)) = Cconj (cis (Carg z)).
Proof.
  destruct (Req_EM_T (Carg z) PI) as [E|E].
  - rewrite (Carg_conj_PI z E), E. unfold cis, Cconj; simpl.
    rewrite sin_PI. f_equal. lra.
  - rewrite (Carg_conj z E). apply cis_opp.
Qed.

Lemma Cis_zero_conj z : Cis_zero (Cconj z) = Cis_zero z.
Proof.
  destruct z as [x y]. unfold Cis_zero, Cconj; simpl. f_equal.
  unfold is_zero. destruct (Req_EM_T (- y) 0), (Req_EM_T y 0);
    try reflexivity; lra.
Qed.

(** ** Moduli *)

Lemma Cnorm2_nonneg z : 0 <= Cnorm2 z.
Proof. unfold Cnorm2. nra. Qed.

Lemma Cabs_nonneg z : 0 <= Cabs z.
Proof. apply sqrt_pos. Qed.

Lemma Cabs_sqr z : Cabs z * Cabs z = Cnorm2 z.
Proof. unfold Cabs. apply sqrt_sqrt, Cnorm2_nonneg. Qed.

Lemma Cabs_cis theta : Cabs (cis theta) = 1.
Proof.
  unfold Cabs, Cnorm2, cis; simpl.
  replace (cos theta * cos theta + sin theta * sin theta) with 1.
  - apply sqrt_1.
  - pose proof (sin2_cos2 theta) as E. unfold Rsqr in E. lra.
Qed.

Lemma Cabs_C0 : Cabs C0 = 0.
Proof.
  unfold Cabs, Cnorm2, C0; simpl.
  replace (0 * 0 + 0 * 0) with 0 by lra. apply sqrt_0.
Qed.

Lemma Cabs_triangle z w : Cabs (Cadd z w) <= Cabs z + Cabs w.
Proof.
  apply Rsqr_incr_0_var.
  - unfold Rsqr.
    replace ((Cabs z + Cabs w) * (Cabs z + Cabs w))
      with (Cabs z * Cabs z + Cabs w * Cabs w + 2 * (Cabs z * Cabs w)) by lra.
    rewrite !Cabs_sqr.
    destruct z as [a b], w as [c d].
    pose proof (sqrt_cauchy a b c d) as Hc. unfold Rsqr in Hc.
    unfold Cabs at 1 2. unfold Cnorm2, Cadd; simpl. nra.
  - pose proof (Cabs_nonneg z). pose proof (Cabs_nonneg w). lra.
Qed.

Lemma Cabs_scale a z : 0 <= a -> Cabs (Cscale a z) = a * Cabs z.
Proof.
  intros Ha. unfold Cabs.
  replace (Cnorm2 (Cscale a z)) with (a * a * Cnorm2 z)
    by (unfold Cnorm2, Cscale; simpl; lra).
  rewrite sqrt_mult by (try apply Cnorm2_nonneg; nra).
  now rewrite sqrt_square.
Qed.

Lemma Cabs_sum_cis (l : list R) : Cabs (Csum (map cis l)) <= INR (length l).
Proof.
  induction l as [|t l IH].
  - simpl. rewrite Cabs_C0. lra.
  - change (Cabs (Cadd (cis t) (Csum (map cis l))) <= INR (S (length l))).
    rewrite S_INR.
    pose proof (Cabs_triangle (cis t) (Csum (map cis l))) as Ht.
    rewrite Cabs_cis in Ht. lra.
Qed.

(** The modulus of a mean of unit phasors lies in [0, 1]. *)
Lemma Cabs_mean_cis (l : list R) : 0 <= Cabs (Cmean (map cis l)) <= 1.
Proof.
  split; [apply Cabs_nonneg|].
  unfold Cmean. rewrite length_map.
  destruct l as [|t l].
  - simpl. rewrite Rinv_0.
    replace (Cscale 0 C0) with C0 by (unfold Cscale, C0; simpl; f_equal; lra).
    rewrite Cabs_C0. lra.
  - assert (Hn : 0 < INR (length (t :: l))) by (apply lt_0_INR; simpl; lia).
    rewrite Cabs_scale by (left; now apply Rinv_0_lt_compat).
    pose proof (Cabs_sum_cis (t :: l)) as Hs.
    apply (Rmult_le_reg_l (INR (length (t :: l)))); [exact Hn|].
    rewrite <- Rmult_assoc, Rinv_r by lra. lra.
Qed.

End NumFacts.

Module SyncFacts.
Import Num NumFacts Sync.
Local Open Scope R_scope.

(** ** Exchanging the two signals of a cell *)

Lemma swap_pairs_length zs : length (swap_pairs zs) = length zs.
Proof. apply length_map. Qed.

Lemma phasor_swap p :
  cis (phase_difference (snd p, fst p)) = Cconj (cis (phase_difference p)).
Proof.
  unfold phase_difference; simpl. rewrite !cis_wrap, <- cis_opp.
  f_equal. lra.
Qed.

Lemma mean_phasor_swap zs :
  mean_phasor (swap_pairs zs) = Cconj (mean_phasor zs).
Proof.
  unfold mean_phasor, swap_pairs. rewrite <- Cconj_mean, !map_map.
  f_equal. apply map_ext. intros p. apply phasor_swap.
Qed.




Lemma degenerate_swap zs : degenerate (swap_pairs zs) = degenerate zs.
Proof.
  unfold degenerate. rewrite swap_pairs_length. f_equal.
  unfold swap_pairs. induction zs as [|p zs IH]; simpl; [reflexivity|].
  rewrite IH. f_equal. apply andb_comm.
Qed.


Lemma cell_dphi_swap m zs :
  cell_dphi m zs <> PI -> cell_dphi m (swap_pairs zs) = - cell_dphi m zs.
Proof.
  unfold cell_dphi. rewrite degenerate_swap.
  destruct (degenerate zs); [intros _; lra|].
  intros Hne. rewrite mean_phasor_swap. now apply Carg_conj.
Qed.

Lemma cell_dphi_swap_PI m zs :
  cell_dphi m zs = PI -> cell_dphi m (swap_pairs zs) = PI.
Proof.
  unfold cell_dphi. rewrite degenerate_swap.
  destruct (degenerate zs); [intros E; exact E|].
  intros E. rewrite mean_phasor_swap. now apply Carg_conj_PI.
Qed.


(** ** Conjugating both signals of a cell

    A backend whose spectrum of the time-reversed signal is the conjugate
    of the spectrum of the signal hands the engine conjugated cells. *)

Lemma conj_pairs_length zs : length (conj_pairs zs) = length zs.
Proof. apply length_map. Qed.

Lemma phasor_conj p :
  cis (phase_difference (Cconj (fst p), Cconj (snd p)))
  = Cconj (cis (phase_difference p)).
Proof.
  unfold phase_difference; simpl. rewrite !cis_wrap, !cis_minus.
  now rewrite !cis_Carg_conj, Cconj_mul.
Qed.

Lemma mean_phasor_conj zs :
  mean_phasor (conj_pairs zs) = Cconj (mean_phasor zs).
Proof.
  unfold mean_phasor, conj_pairs. rewrite <- Cconj_mean, !map_map.
  f_equal. apply map_ext. intros p. apply phasor_conj.
Qed.

Lemma cross_spectrum_conj zs :
  cross_spectrum (conj_pairs zs) = Cconj (cross_spectrum zs).
Proof.
  unfold cross_spectrum, conj_pairs. rewrite <- Cconj_mean, !map_map.
  f_equal. apply map_ext. intros p. simpl. now rewrite Cconj_mul.
Qed.

Lemma power_conj zs :
  power1 (conj_pairs zs) = power1 zs /\ power2 (conj_pairs zs) = power2 zs.
Proof.
  unfold power1, power2, conj_pairs, Rmean.
  rewrite !map_map, !length_map.
  split; do 2 f_equal; apply map_ext; intros p; apply Cnorm2_conj.
Qed.

Lemma degenerate_conj zs : degenerate (conj_pairs zs) = degenerate zs.
Proof.
  unfold degenerate. rewrite conj_pairs_length. f_equal.
  unfold conj_pairs. induction zs as [|p zs IH]; simpl; [reflexivity|].
  now rewrite IH, !Cis_zero_conj.
Qed.

(** Conjugated spectra: the same magnitude, the opposite phase. *)
Lemma cell_sync_conj m zs : cell_sync m (conj_pairs zs) = cell_sync m zs.
Proof.
  unfold cell_sync, plv. rewrite degenerate_conj.
  destruct (degenerate zs); [reflexivity|].
  destruct (power_conj zs) as [E1 E2].
  destruct m.
  - now rewrite cross_spectrum_conj, Cabs_conj, E1, E2.
  - now rewrite mean_phasor_conj, Cabs_conj.
  - now rewrite mean_phasor_conj, Cabs_conj, conj_pairs_length.
Qed.

Lemma cell_dphi_conj m zs :
  cell_dphi m zs <> PI -> cell_dphi m (conj_pairs zs) = - cell_dphi m zs.
Proof.
  unfold cell_dphi. rewrite degenerate_conj.
  destruct (degenerate zs); [intros _; lra|].
  intros Hne. rewrite mean_phasor_conj. now apply Carg_conj.
Qed.

(** ** The engine over whole representations *)



Lemma compute_Ok m s1 s2 o :
  compute m s1 s2 = Ok o ->
  o = map (fun zs => (cell_sync m zs, cell_dphi m zs)) (cells_of s1 s2).
Proof.
  unfold compute.
  destruct (negb _); [discriminate|].
  destruct (negb _); [discriminate|].
  now intros [= <-].
Qed.

Lemma compute_guard m m' s1 s2 o :
  compute m s1 s2 = Ok o ->
  compute m' s1 s2
  = Ok (map (fun zs => (cell_sync m' zs, cell_dphi m' zs)) (cells_of s1 s2)).
Proof.
  unfold compute.
  destruct (negb _); [discriminate|].
  destruct (negb _); [discriminate|]. reflexivity.
Qed.


Lemma compute_nth m s1 s2 o i zs :
  compute m s1 s2 = Ok o ->
  nth_error (cells_of s1 s2) i = Some zs ->
  nth_error o i = Some (cell_sync m zs, cell_dphi m zs).
Proof.
  intros Hc Hn. rewrite (compute_Ok _ _ _ _ Hc).
  exact (map_nth_error (fun zs => (cell_sync m zs, cell_dphi m zs)) i _ Hn).
Qed.

End SyncFacts.

Module EngineExamples.
Import Num NumFacts Sync SyncFacts Inputs.
Local Open Scope R_scope.

Lemma Cmean_singleton z : Cmean [z] = z.
Proof.
  destruct z as [x y]. unfold Cmean, Cscale, Csum, Cadd, C0; simpl.
  rewrite Rinv_1. f_equal; lra.
Qed.

Lemma Carg_pos_real x : 0 < x -> Carg (x, 0) = 0.
Proof.
  intros Hx. unfold Carg; simpl. destruct (Rlt_dec 0 x); [|lra].
  unfold Rdiv. now rewrite Rmult_0_l, atan_0.
Qed.

Lemma Carg_neg_real x : x < 0 -> Carg (x, 0) = PI.
Proof.
  intros Hx. unfold Carg; simpl. destruct (Rlt_dec 0 x); [lra|].
  destruct (Rlt_dec x 0); [|lra]. destruct (Rle_dec 0 0); [|lra].
  unfold Rdiv. rewrite Rmult_0_l, atan_0. lra.
Qed.

Lemma Carg_C0 : Carg (0, 0) = 0.
Proof.
  unfold Carg; simpl. destruct (Rlt_dec 0 0); [lra|]. reflexivity.
Qed.

Lemma wrap_0 : wrap 0 = 0.
Proof.
  pose proof PI_RGT_0. unfold wrap.
  destruct (Rlt_dec PI 0); [lra|]. destruct (Rle_dec 0 (- PI)); lra.
Qed.

Lemma wrap_PI : wrap PI = PI.
Proof.
  pose proof PI_RGT_0. unfold wrap.
  destruct (Rlt_dec PI PI); [lra|]. destruct (Rle_dec PI (- PI)); lra.
Qed.

Lemma wrap_opp_PI : wrap (- PI) = PI.
Proof.
  pose proof PI_RGT_0. unfold wrap.
  destruct (Rlt_dec PI (- PI)); [lra|].
  destruct (Rle_dec (- PI) (- PI)); lra.
Qed.

Lemma cis_0 : cis 0 = (1, 0).
Proof. unfold cis. now rewrite cos_0, sin_0. Qed.

Lemma cis_PI : cis PI = (-1, 0).
Proof. unfold cis. now rewrite cos_PI, sin_PI. Qed.

Lemma Cis_zero_one : Cis_zero (1, 0) = false.
Proof.
  unfold Cis_zero; simpl. assert (E : is_zero 1 = false)
    by (apply is_zero_false; lra).
  now rewrite E.
Qed.

Lemma Cis_zero_minus_one : Cis_zero (-1, 0) = false.
Proof.
  unfold Cis_zero; simpl. assert (E : is_zero (-1) = false)
    by (apply is_zero_false; lra).
  now rewrite E.
Qed.

Lemma Cis_zero_C0 : Cis_zero (0, 0) = true.
Proof. now apply Cis_zero_true. Qed.


Lemma one_trial_plv : plv one_trial = 1.
Proof.
  unfold plv, mean_phasor, one_trial; simpl.
  rewrite Cmean_singleton. apply Cabs_cis.
Qed.

Lemma one_trial_ppc : cell_sync PPC one_trial = NaN.
Proof.
  unfold cell_sync, degenerate.
  change (length one_trial) with 1%nat. simpl forallb. simpl Nat.eqb.
  rewrite Cis_zero_one. simpl.
  rewrite one_trial_plv.
  replace (1 * (1 * 1) - 1) with 0 by lra.
  replace (1 - 1) with 0 by lra.
  apply fdiv_0_0.
Qed.


Lemma half_zero_coherence : cell_sync Coherence half_zero = NaN.
Proof.
  unfold cell_sync, degenerate, half_zero. simpl.
  rewrite Cis_zero_C0, Cis_zero_one. simpl.
  unfold cross_spectrum, power1, power2, Rmean. simpl.
  rewrite Cmean_singleton, Rinv_1.
  replace (Cabs (Cmul (0, 0) (Cconj (1, 0)))) with 0.
  2:{ unfold Cabs, Cnorm2, Cmul, Cconj; simpl.
      replace ((0 * 1 - 0 * - 0) * (0 * 1 - 0 * - 0)
               + (0 * - 0 + 0 * 1) * (0 * - 0 + 0 * 1)) with 0 by lra.
      now rewrite sqrt_0. }
  replace (sqrt (1 * (Cnorm2 (0, 0) + 0) * (1 * (Cnorm2 (1, 0) + 0)))) with 0.
  2:{ unfold Cnorm2; simpl.
      replace (1 * (0 * 0 + 0 * 0 + 0) * (1 * (1 * 1 + 0 * 0 + 0))) with 0
        by lra.
      now rewrite sqrt_0. }
  apply fdiv_0_0.
Qed.


Lemma all_zero_degenerate : degenerate all_zero = true.
Proof. unfold degenerate, all_zero. simpl. now rewrite Cis_zero_C0. Qed.


Lemma opposed_not_degenerate : degenerate opposed = false.
Proof. unfold degenerate, opposed. simpl. now rewrite Cis_zero_one. Qed.

Lemma opposed_mean_phasor : mean_phasor opposed = (0, 0).
Proof.
  unfold mean_phasor, opposed, phase_difference; simpl.
  rewrite !(Carg_pos_real 1), (Carg_neg_real (-1)) by lra.
  replace (0 - 0) with 0 by lra. replace (0 - PI) with (- PI) by lra.
  rewrite wrap_0, wrap_opp_PI, cis_0, cis_PI.
  unfold Cmean, Cscale, Csum, Cadd, C0; simpl.
  replace (1 + (-1 + 0)) with 0 by lra. replace (0 + (0 + 0)) with 0 by lra.
  now rewrite Rmult_0_r.
Qed.

Lemma opposed_plv : plv opposed = 0.
Proof. unfold plv. rewrite opposed_mean_phasor. apply Cabs_C0. Qed.

Lemma opposed_ppc : cell_sync PPC opposed = Fin (-1).
Proof.
  unfold cell_sync. rewrite opposed_not_degenerate, opposed_plv.
  change (INR (length opposed)) with (INR 2). simpl INR.
  rewrite fdiv_finite by lra. f_equal. field.
Qed.


Lemma antiphase_not_degenerate : degenerate antiphase = false.
Proof. unfold degenerate, antiphase. simpl. now rewrite Cis_zero_minus_one. Qed.

Lemma antiphase_mean_phasor : mean_phasor antiphase = (-1, 0).
Proof.
  unfold mean_phasor, antiphase, phase_difference; simpl.
  rewrite Cmean_singleton.
  rewrite (Carg_pos_real 1), (Carg_neg_real (-1)) by lra.
  replace (PI - 0) with PI by lra. now rewrite wrap_PI, cis_PI.
Qed.

Lemma antiphase_dphi : cell_dphi PLV antiphase = PI.
Proof.
  unfold cell_dphi. rewrite antiphase_not_degenerate, antiphase_mean_phasor.
  apply Carg_neg_real. lra.
Qed.

Lemma antiphase_swapped_dphi : cell_dphi PLV (swap_pairs antiphase) = PI.
Proof. apply cell_dphi_swap_PI, antiphase_dphi. Qed.

Lemma Carg_pos_imag y : 0 < y -> Carg (0, y) = PI / 2.
Proof.
  intros Hy. unfold Carg; simpl.
  destruct (Rlt_dec 0 0); [lra|].
  destruct (Rlt_dec 0 y); [reflexivity|lra].
Qed.

Lemma wrap_PI2 : wrap (PI / 2) = PI / 2.
Proof.
  pose proof PI_RGT_0. unfold wrap.
  destruct (Rlt_dec PI (PI / 2)); [lra|].
  destruct (Rle_dec (PI / 2) (- PI)); [lra|reflexivity].
Qed.

Lemma quadrature_not_degenerate : degenerate quadrature = false.
Proof.
  unfold degenerate, quadrature. simpl. rewrite Cis_zero_one.
  now rewrite andb_false_r.
Qed.

Lemma quadrature_dphi m : cell_dphi m quadrature = PI / 2.
Proof.
  unfold cell_dphi. rewrite quadrature_not_degenerate.
  unfold mean_phasor, quadrature. simpl map. rewrite Cmean_singleton.
  unfold phase_difference. simpl fst. simpl snd.
  rewrite (Carg_pos_imag 1), (Carg_pos_real 1), Rminus_0_r, wrap_PI2 by lra.
  unfold cis. rewrite cos_PI2, sin_PI2. apply Carg_pos_imag. lra.
Qed.

Lemma quadrature_swapped_dphi m :
  cell_dphi m (swap_pairs quadrature) = - (PI / 2).
Proof.
  rewrite cell_dphi_swap; [now rewrite quadrature_dphi|].
  rewrite quadrature_dphi. pose proof PI_RGT_0. lra.
Qed.

End EngineExamples.

Module EngineClaims.
Import Num NumFacts Sync SyncFacts EngineExamples.
Local Open Scope R_scope.

Lemma degenerate_spec zs :
  degenerate zs = true <->
  length zs = 0%nat \/ Forall (fun p => fst p = C0 /\ snd p = C0) zs.
Proof.
  unfold degenerate. rewrite orb_true_iff, Nat.eqb_eq, forallb_forall, List.Forall_forall.
  split; (intros [H|H]; [now left | right]); intros p Hp; specialize (H p Hp).
  - apply andb_true_iff in H. now rewrite !Cis_zero_true in H.
  - apply andb_true_iff. now rewrite !Cis_zero_true.
Qed.

Lemma Rsum_nonneg l : Forall (fun x => 0 <= x) l -> 0 <= Rsum l.
Proof. induction 1; simpl; lra. Qed.

Lemma Rsum_zero l :
  Forall (fun x => 0 <= x) l -> Rsum l = 0 -> Forall (fun x => x = 0) l.
Proof.
  induction 1 as [|x l Hx Hl IH]; simpl; intros E; constructor.
  - pose proof (Rsum_nonneg l Hl). lra.
  - apply IH. pose proof (Rsum_nonneg l Hl). lra.
Qed.

Lemma Cnorm2_zero z : Cnorm2 z = 0 -> z = C0.
Proof.
  destruct z as [x y]. unfold Cnorm2, C0; simpl. intros E.
  assert (x = 0) by nra. assert (y = 0) by nra. now subst.
Qed.

Lemma Rmean_norms_zero {B} (f : B -> C) (l : list B) :
  l <> [] -> Rmean (map (fun p => Cnorm2 (f p)) l) = 0 ->
  Forall (fun p => f p = C0) l.
Proof.
  intros Hne E. unfold Rmean in E. rewrite length_map in E.
  assert (Hn : 0 < INR (length l)).
  { apply lt_0_INR. destruct l; [congruence | simpl; lia]. }
  assert (Hs : Rsum (map (fun p => Cnorm2 (f p)) l) = 0).
  { apply Rmult_integral in E. destruct E as [E|E]; [|exact E].
    exfalso. apply (Rinv_neq_0_compat (INR (length l))); lra. }
  apply Rsum_zero in Hs.
  - rewrite List.Forall_map in Hs. eapply List.Forall_impl; [|exact Hs].
    intros p. apply Cnorm2_zero.
  - rewrite List.Forall_map. apply List.Forall_forall. intros. apply Cnorm2_nonneg.
Qed.

Lemma Rmean_norms_nonneg {B} (f : B -> C) (l : list B) :
  0 <= Rmean (map (fun p => Cnorm2 (f p)) l).
Proof.
  unfold Rmean. rewrite length_map. apply Rmult_le_pos.
  - destruct l; simpl length.
    + simpl. rewrite Rinv_0. lra.
    + left. apply Rinv_0_lt_compat, lt_0_INR. lia.
  - apply Rsum_nonneg. rewrite List.Forall_map. apply List.Forall_forall.
    intros. apply Cnorm2_nonneg.
Qed.

Lemma plv_range zs : 0 <= plv zs <= 1.
Proof.
  unfold plv, mean_phasor.
  rewrite <- (map_map phase_difference cis). apply Cabs_mean_cis.
Qed.

Lemma coherence_finite zs :
  (power1 zs = 0 <-> power2 zs = 0) ->
  is_finite (cell_sync Coherence zs) = true.
Proof.
  intros Hiff. unfold cell_sync.
  destruct (degenerate zs) eqn:Ed; [reflexivity|].
  assert (Hne : zs <> []).
  { intros ->. discriminate. }
  assert (Hp1 : power1 zs <> 0).
  { intros E1. pose proof (proj1 Hiff E1) as E2.
    apply Rmean_norms_zero in E1, E2; try exact Hne.
    assert (Hd : degenerate zs = true).
    { apply degenerate_spec. right. rewrite List.Forall_forall in *.
      intros p Hp. split; [now apply E1 | now apply E2]. }
    congruence. }
  assert (Hp2 : power2 zs <> 0) by (intros E; apply Hp1, Hiff, E).
  pose proof (Rmean_norms_nonneg (fun p : C * C => fst p) zs) as H1.
  pose proof (Rmean_norms_nonneg (fun p : C * C => snd p) zs) as H2.
  change (0 <= power1 zs) in H1. change (0 <= power2 zs) in H2.
  rewrite fdiv_finite; [reflexivity|].
  assert (0 < sqrt (power1 zs * power2 zs)); [|lra].
  apply sqrt_lt_R0. apply Rmult_lt_0_compat; lra.
Qed.

Lemma ppc_finite zs :
  length zs <> 1%nat -> is_finite (cell_sync PPC zs) = true.
Proof.
  intros Hn. unfold cell_sync.
  destruct (degenerate zs) eqn:Ed; [reflexivity|].
  rewrite fdiv_finite; [reflexivity|].
  assert (2 <= length zs)%nat.
  { destruct zs as [|? [|? ?]]; simpl in *; try lia; discriminate. }
  apply le_INR in H. simpl in H. lra.
Qed.

Lemma nth_error_combine {X Y} (l1 : list X) (l2 : list Y) j a b :
  nth_error l1 j = Some a -> nth_error l2 j = Some b ->
  nth_error (combine l1 l2) j = Some (a, b).
Proof.
  revert l2 j. induction l1 as [|x l1 IH]; intros [|y l2] [|j]; simpl;
    try discriminate.
  - now intros [= ->] [= ->].
  - apply IH.
Qed.

(** neural_info.py, [anova1], lines 243 to 261: with the omega-squared
    formula the explained variance returned for a data series whose
    SS_total is 0 is 0, as a proportion and as a percentage, whatever the
    numbers of observations and of groups (the raw statistic there is a
    division of 0 by 0 or by the error mean square). *)
Lemma anova1_zero_variance as_pct n_obs n_groups SSg SSt ev j :
  length SSg = length SSt ->
  Anova.anova1_exp_var true as_pct n_obs n_groups SSg SSt = Some ev ->
  nth_error SSt j = Some 0 ->
  nth_error ev j = Some (Fin 0).
Proof.
  intros Hlen Hev Hj. unfold Anova.anova1_exp_var in Hev.
  injection Hev as <-.
  assert (Hjlt : (j < length SSt)%nat) by (apply nth_error_Some; congruence).
  destruct (nth_error SSg j) as [g|] eqn:Eg.
  2:{ apply nth_error_None in Eg. lia. }
  set (MS := map _ (combine SSt SSg)).
  set (SSt' := map _ SSt).
  destruct (nth_error MS j) as [ms|] eqn:Ems.
  2:{ apply nth_error_None in Ems. unfold MS in Ems.
      rewrite length_map, length_combine in Ems. lia. }
  assert (Et' : nth_error SSt' j = Some 1).
  { unfold SSt'.
    rewrite (map_nth_error (fun t : R => if is_zero t then 1 else t) j _ Hj).
    assert (E0 : is_zero 0 = true) by now apply is_zero_true.
    now rewrite E0. }
  set (ev0 := map _ (combine (combine SSg SSt') MS)).
  destruct (nth_error ev0 j) as [e0|] eqn:Ee0.
  2:{ apply nth_error_None in Ee0. unfold ev0, SSt', MS in Ee0.
      rewrite length_map, !length_combine, !length_map, length_combine in Ee0.
      lia. }
  assert (Eu : nth_error (map is_zero SSt) j = Some true).
  { rewrite (map_nth_error is_zero j _ Hj).
    f_equal. now apply is_zero_true. }
  pose proof (nth_error_combine _ _ _ _ _ Ee0 Eu) as Ec.
  assert (Ev : nth_error (map (fun p : fval * bool => if snd p then Fin 0 else fst p)
                              (combine ev0 (map is_zero SSt))) j = Some (Fin 0)).
  { now rewrite (map_nth_error _ j _ Ec). }
  destruct as_pct.
  - rewrite (map_nth_error (fmul (Fin 100)) j _ Ev). simpl. do 2 f_equal. lra.
  - exact Ev.
Qed.

Lemma anova1_zero_variance_witness :
  nth_error [Fin 0; Fin 0] 1 = Some (Fin 0).
Proof.
  apply (anova1_zero_variance true 2%Z 2%Z [0; 0] [0; 0] [Fin 0; Fin 0] 1%nat);
    [reflexivity | | reflexivity].
  unfold Anova.anova1_exp_var. simpl.
  assert (E0 : is_zero 0 = true) by now apply is_zero_true.
  rewrite !E0. simpl. do 3 f_equal; f_equal; lra.
Defined.

End EngineClaims.

Module SynchronyClaims.
Import Num NumPy NumFacts Sync SyncFacts EngineExamples EngineClaims Inputs.
Local Open Scope R_scope.

(** ** From the engine to the values a call returns *)






Lemma swapped_signals zs :
  signal_1 (swap_pairs zs) = signal_2 zs /\
  signal_2 (swap_pairs zs) = signal_1 zs.
Proof.
  unfold signal_1, signal_2, swap_pairs. now rewrite !map_map.
Qed.


(** *** The regression oracle *)


(** *** Cells whose spectral values all vanish

    No statistic of a cell can follow both the rule that a cell whose
    spectral values are all zero has sync = 0 for every method and the
    relation PPC = (N p^2 - 1)/(N - 1), p the PLV of the cell, for every
    cell of two or more trials: on two all-zero trials the first gives 0
    for PLV and for PPC, the second then gives -1 for PPC. *)
Lemma zero_cells_and_ppc_relation_exclude_each_other :
  ~ exists sync : method -> list (C * C) -> fval,
      (forall m zs, Forall (fun p => fst p = C0 /\ snd p = C0) zs ->
                    sync m zs = Fin 0) /\
      (forall zs p, (2 <= length zs)%nat -> sync PLV zs = Fin p ->
                    sync PPC zs
                    = Fin ((INR (length zs) * (p * p) - 1)
                           / (INR (length zs) - 1))).
Proof.
  intros (sync & H0 & Hppc).
  assert (Hz : Forall (fun p : C * C => fst p = C0 /\ snd p = C0) all_zero)
    by (unfold all_zero; repeat constructor).
  pose proof (Hppc all_zero 0 ltac:(simpl; lia) (H0 PLV _ Hz)) as E.
  rewrite (H0 PPC _ Hz) in E. injection E as E.
  simpl in E. unfold Rdiv in E.
  replace (1 + 1 - 1) with 1 in E by lra. rewrite Rinv_1 in E. lra.
Qed.

(** *** C5 *)



End SynchronyClaims.


(** ** The store: what a call may change *)

Module StoreFacts.
Import Num NumPy Sync.

Lemma keeps_ret {A} (a : A) : keeps_store (ret a).
Proof. intros h. reflexivity. Qed.

Lemma keeps_fail {A} e : keeps_store (@fail A e).
Proof. intros h. reflexivity. Qed.

Lemma keeps_lift {A} (r : outcome A) : keeps_store (lift r).
Proof. intros h. reflexivity. Qed.

Lemma keeps_lift_option {A} e (o : option A) : keeps_store (lift_option e o).
Proof. intros h. reflexivity. Qed.

Lemma keeps_read l : keeps_store (read l).
Proof. intros h. unfold read. now destruct (h !! l). Qed.

Lemma keeps_alloc a : keeps_store (alloc a).
Proof.
  intros h. unfold alloc; simpl. apply insert_subseteq.
  apply not_elem_of_dom, is_fresh.
Qed.

Lemma keeps_bind {A B} (c : M A) (k : A -> M B) :
  keeps_store c -> (forall a, keeps_store (k a)) -> keeps_store (bind c k).
Proof.
  intros Hc Hk h. unfold bind.
  specialize (Hc h). destruct (c h) as [[a|e] h']; simpl in *.
  - etransitivity; [exact Hc | apply Hk].
  - exact Hc.
Qed.

Lemma keeps_check_keywords kws kw : keeps_store (check_keywords kws kw).
Proof.
  unfold check_keywords. destruct (List.find _ kw);
    [apply keeps_fail | apply keeps_ret].
Qed.

Lemma keeps_validate kws a : keeps_store (validate kws a).
Proof.
  unfold validate.
  repeat (apply keeps_bind; [|intros ?]);
    auto using keeps_check_keywords, keeps_lift_option, keeps_ret.
Qed.

(** Validation does not touch the store at all. *)
Lemma validate_store kws a h : snd (validate kws a h) = h.
Proof.
  unfold validate, bind, check_keywords, lift_option, ret, fail.
  destruct (List.find _ (kwargs a)); [reflexivity|].
  destruct (parse_method _); [|reflexivity].
  now destruct (parse_spec_method _).
Qed.

End StoreFacts.

(** ** The two entry points *)

Module EntryPointClaims.
Import Num NumPy Sync StoreFacts Inputs.

(** A call that passes validation on two arrays of the store returns the
    values of [synchrony_values] in a new array: the store does change, by
    extension only. *)
Lemma synchrony_returns kws es l1 l2 a h cfg d1 d2 v :
  validate kws a h = (Ok cfg, h) ->
  h !! l1 = Some d1 -> h !! l2 = Some d2 ->
  synchrony_values es (fst cfg) (snd cfg) a d1 d2 = Ok v ->
  exists r h1,
    synchrony kws es l1 l2 a h = (Ok r, h1) /\
    h !! out_sync r = None /\
    h1 !! out_sync r
    = Some (AFloat (NDArray (sr_grid (fst v)) (map fst (snd v)))) /\
    (if return_phase a
     then exists l, out_dphi r = Some l /\
                    h1 !! l = Some (AFloat (NDArray (sr_grid (fst v))
                                              (map (fun c => Fin (snd c))
                                                   (snd v))))
     else out_dphi r = None).
Proof.
  intros Hv H1 H2 Hs.
  unfold synchrony, bind at 1. rewrite Hv.
  unfold bind at 1, read at 1. rewrite H1.
  unfold bind at 1, read at 1. rewrite H2.
  unfold bind at 1, lift at 1. rewrite Hs.
  set (arr := AFloat (NDArray (sr_grid (fst v)) (map fst (snd v)))).
  set (l := fresh (dom h)).
  assert (Hl : h !! l = None) by apply not_elem_of_dom, is_fresh.
  unfold bind at 1, alloc at 1. fold l. fold arr.
  unfold bind at 1, alloc at 1.
  unfold bind at 1, alloc at 1.
  set (h' := <[l := arr]> h).
  set (lf := fresh (dom h')). set (h'' := <[lf := _]> h').
  set (lt := fresh (dom h'')). set (h3 := <[lt := _]> h'').
  assert (S1 : h' ⊆ h3).
  { etransitivity; [apply (keeps_alloc (AFloat (sr_freqs (fst v))) h')|].
    apply (keeps_alloc (AFloat (sr_timepts (fst v))) h''). }
  assert (Hl' : h' !! l = Some arr) by apply lookup_insert_eq.
  destruct (return_phase a).
  - unfold bind, alloc, ret. eexists _, _. split; [reflexivity|]. simpl.
    split; [exact Hl|]. split.
    + apply (lookup_weaken h'); [exact Hl'|].
      etransitivity; [exact S1|]. apply insert_subseteq.
      apply not_elem_of_dom, is_fresh.
    + eexists. split; [reflexivity|]. apply lookup_insert_eq.
  - unfold ret. eexists _, _. split; [reflexivity|]. simpl.
    split; [exact Hl|]. split; [|reflexivity].
    exact (lookup_weaken _ _ _ _ Hl' S1).
Qed.

(** *** C8 *)

Lemma find_unknown kws (kw : list (string * pyval)) k v :
  In (k, v) kw -> ~ In k kws ->
  exists p, List.find (fun p => negb (existsb (String.eqb (fst p)) kws)) kw
            = Some p /\ ~ In (fst p) kws.
Proof.
  intros Hin Hk.
  destruct (List.find _ kw) as [p|] eqn:E.
  - exists p. split; [reflexivity|].
    apply List.find_some in E. destruct E as [_ E].
    apply negb_true_iff in E. intros Hp.
    assert (Ht : existsb (String.eqb (fst p)) kws = true).
    { apply existsb_exists. exists (fst p). split; [exact Hp|].
      apply String.eqb_refl. }
    congruence.
  - exfalso. pose proof (List.find_none _ _ E _ Hin) as Hf. simpl in Hf.
    apply negb_false_iff, existsb_exists in Hf.
    destruct Hf as (x & Hx & Heq). apply String.eqb_eq in Heq. now subst.
Qed.

(** C8. A call of either entry point with a keyword outside the
    recognized set returns a configuration error naming an unrecognized
    keyword, whatever the other arguments are; no result is returned, the
    store is left as it was, and the outcome is the same for every adapter:
    nothing is computed before the refusal. *)
Theorem unknown_keyword_is_rejected :
  forall kws (data1 data2 : loc) (a : sync_args) (w : R) (cs : list R)
         (h : heap) (k : string) (v : pyval),
    In (k, v) (kwargs a) -> ~ In k kws ->
    exists k',
      ~ In k' kws /\
      (forall es,
          synchrony kws es data1 data2 a h = (Err (UnknownKeyword k'), h)) /\
      (forall es esf,
          spike_field_coupling kws es esf data1 data2 (CouplingArgs a w cs) h
          = (Err (UnknownKeyword k'), h)).
Proof.
  intros kws data1 data2 a w cs h k v Hin Hk.
  destruct (find_unknown kws _ k v Hin Hk) as (p & Hf & Hp).
  exists (fst p). split; [exact Hp|].
  assert (Hv : validate kws a h = (Err (UnknownKeyword (fst p)), h)).
  { unfold validate, bind at 1, check_keywords. now rewrite Hf. }
  split; intros.
  - unfold synchrony, bind at 1. now rewrite Hv.
  - unfold spike_field_coupling, bind at 1. simpl c_sync. now rewrite Hv.
Qed.

Lemma unknown_keyword_is_rejected_witness :
  In (TestSync.keyword_refused, PNone) (kwargs args_with_foo) /\
  ~ In TestSync.keyword_refused TestSync.keywords_passed /\
  exists k',
    ~ In k' TestSync.keywords_passed /\
    (forall es,
        synchrony TestSync.keywords_passed es 1%positive 2%positive
                  args_with_foo ∅
        = (Err (UnknownKeyword k'), ∅)) /\
    (forall es esf,
        spike_field_coupling TestSync.keywords_passed es esf 1%positive
                             2%positive
                             (CouplingArgs args_with_foo (1 / 5)%R []) ∅
        = (Err (UnknownKeyword k'), ∅)).
Proof.
  assert (Hin : In (TestSync.keyword_refused, PNone) (kwargs args_with_foo))
    by (right; left; reflexivity).
  assert (Hk : ~ In TestSync.keyword_refused TestSync.keywords_passed).
  { unfold TestSync.keyword_refused, TestSync.keywords_passed. simpl.
    intros H. repeat (destruct H as [H|H]; [discriminate|]). exact H. }
  split; [exact Hin|]. split; [exact Hk|].
  exact (unknown_keyword_is_rejected TestSync.keywords_passed 1%positive
           2%positive args_with_foo (1 / 5)%R [] ∅ _ _ Hin Hk).
Defined.

(** The keywords the tests do pass are let through. *)
Example recognized_keywords_pass h :
  validate TestSync.keywords_passed
           (SyncArgs 0 "PLV" "wavelet" true (-1) None
                     [("smp_rate"%string, PInt 1000)]) h
  = (Ok (PLV, Wavelet), h).
Proof. reflexivity. Qed.

(** *** C4 *)








(** A PLV or PPC call that passes validation on two arrays of the store
    returns the outputs of the windowing layer in new arrays. *)
Lemma coupling_returns kws es esf l1 l2 c h m sm s f r :
  validate kws (c_sync c) h = (Ok (m, sm), h) ->
  m <> Coherence ->
  h !! l1 = Some s -> h !! l2 = Some f ->
  esf sm (c_sync c) s f = Ok r ->
  let cs := retained_centers sm (sf_times r) (window_centers c)
                             (window_width c) in
  let out := spike_field_compute m sm (window_centers c) (window_width c) r in
  exists res h1 ln,
    spike_field_coupling kws es esf l1 l2 c h = (Ok res, h1) /\
    h1 !! c_out_sync res
    = Some (AFloat (NDArray [length (sf_field r); length cs]
                            (concat (map (map fst) (fst out))))) /\
    c_out_n res = Some ln /\
    h1 !! ln = Some (ACount (NDArray [length cs] (snd out))).
Proof.
  intros Hv Hm H1 H2 Hr. cbv zeta.
  unfold spike_field_coupling, bind at 1. rewrite Hv.
  unfold bind at 1, read at 1. rewrite H1.
  unfold bind at 1, read at 1. rewrite H2.
  cbn [fst snd].
  set (cs := retained_centers sm (sf_times r) (window_centers c)
                              (window_width c)).
  set (out := spike_field_compute m sm (window_centers c) (window_width c) r).
  assert (E : forall k : spike_field_rep -> M coupling_result,
             (let! r0 := lift (esf sm (c_sync c) s f) in k r0) h = k r h).
  { intros k. unfold bind, lift. now rewrite Hr. }
  assert (Hgoal :
            exists res h1 ln,
              (let! r0 := lift (esf sm (c_sync c) s f) in
               let cs0 := retained_centers sm (sf_times r0) (window_centers c)
                                           (window_width c) in
               let out0 := spike_field_compute m sm (window_centers c)
                                               (window_width c) r0 in
               let grid := [length (sf_field r0); length cs0] in
               let! sync := alloc (AFloat (NDArray grid
                                             (concat (map (map fst) (fst out0))))) in
               let! freqs := alloc (AFloat (sf_freqs r0)) in
               let! timepts := alloc (AFloat (NDArray [length cs0] (map Fin cs0))) in
               let! n := alloc (ACount (NDArray [length cs0] (snd out0))) in
               if return_phase (c_sync c)
               then let! phi := alloc (AFloat (NDArray grid
                                             (concat (map (map snd) (fst out0))))) in
                    ret (CouplingResult sync freqs timepts (Some n) (Some phi))
               else ret (CouplingResult sync freqs timepts (Some n) None)) h
              = (Ok res, h1) /\
              h1 !! c_out_sync res
              = Some (AFloat (NDArray [length (sf_field r); length cs]
                                      (concat (map (map fst) (fst out))))) /\
              c_out_n res = Some ln /\
              h1 !! ln = Some (ACount (NDArray [length cs] (snd out)))).
  { rewrite E. cbv zeta. fold cs. fold out.
    unfold bind at 1, alloc at 1.
    set (l := fresh (dom h)). set (h' := <[l := _]> h).
    unfold bind at 1, alloc at 1.
    set (lf := fresh (dom h')). set (h2 := <[lf := _]> h').
    unfold bind at 1, alloc at 1.
    set (lt := fresh (dom h2)). set (h3 := <[lt := _]> h2).
    unfold bind at 1, alloc at 1.
    set (ln := fresh (dom h3)). set (h4 := <[ln := _]> h3).
    assert (Hl : h' !! l = Some (AFloat (NDArray [length (sf_field r); length cs]
                                           (concat (map (map fst) (fst out))))))
      by apply lookup_insert_eq.
    assert (S4 : h' ⊆ h4).
    { etransitivity; [apply (keeps_alloc (AFloat (sf_freqs r)) h')|].
      etransitivity;
        [apply (keeps_alloc (AFloat (NDArray [length cs] (map Fin cs))) h2)|].
      apply (keeps_alloc (ACount (NDArray [length cs] (snd out))) h3). }
    assert (Hn : h4 !! ln = Some (ACount (NDArray [length cs] (snd out))))
      by apply lookup_insert_eq.
    destruct (return_phase (c_sync c)).
    - unfold bind, alloc, ret. eexists _, _, ln. split; [reflexivity|].
      cbn [c_out_sync c_out_n].
      assert (S5 : h4 ⊆ <[fresh (dom h4) :=
                            AFloat (NDArray [length (sf_field r); length cs]
                                            (concat (map (map snd) (fst out))))]> h4)
        by (apply insert_subseteq, not_elem_of_dom, is_fresh).
      split; [|split; [reflexivity|]].
      + apply (lookup_weaken h'); [exact Hl|].
        etransitivity; [exact S4 | exact S5].
      + exact (lookup_weaken _ _ _ _ Hn S5).
    - unfold ret. eexists _, _, ln. split; [reflexivity|].
      cbn [c_out_sync c_out_n].
      split; [|split; [reflexivity | exact Hn]].
      exact (lookup_weaken _ _ _ _ Hl S4). }
  destruct m; [congruence | exact Hgoal | exact Hgoal].
Qed.

(** With a spike in the window the cell is a number: the NaN marks the
    absence of samples only. *)
Example one_spike_cell_is_finite :
  spike_field_cell PLV [0%R] = (Fin (Cabs (Cmean [cis 0])), Fin (Carg (Cmean [cis 0]))).
Proof. reflexivity. Qed.

End EntryPointClaims.

Module SamplingFacts.
Import Sampling.

Lemma nth_ne_mask (trials : list Z) (trial : Z) (j : nat) :
  j < length trials ->
  nth j (ne_mask trials trial) false = negb (nth j trials 0%Z =? trial)%Z.
Proof.
  intros Hj. unfold ne_mask.
  rewrite (nth_indep _ false (negb (0 =? trial)%Z)) by now rewrite length_map.
  now rewrite (map_nth (fun t => negb (t =? trial)%Z)).
Qed.

Lemma nth_arange (n : Z) (j : nat) :
  j < Z.to_nat n -> nth j (arange n) 0%Z = Z.of_nat j.
Proof.
  intros Hj. unfold arange.
  change 0%Z with (Z.of_nat 0). rewrite map_nth, seq_nth; [reflexivity|lia].
Qed.

Lemma length_arange (n : Z) : length (arange n) = Z.to_nat n.
Proof. unfold arange. now rewrite length_map, length_seq. Qed.

Lemma count_true_ne_mask_seq (k start len : nat) :
  count_true (ne_mask (map Z.of_nat (seq start len)) (Z.of_nat k)) =
  if (start <=? k) && (k <? start + len) then len - 1 else len.
Proof.
  unfold count_true, ne_mask. revert start.
  induction len as [|len IH]; intros start; simpl.
  - now destruct (_ && _).
  - specialize (IH (S start)).
    destruct (Z.eqb_spec (Z.of_nat start) (Z.of_nat k)) as [E|E]; simpl;
      rewrite IH;
      destruct (Nat.leb_spec (S start) k), (Nat.leb_spec start k),
               (Nat.ltb_spec k (S start + len)), (Nat.ltb_spec k (start + S len));
      simpl; lia.
Qed.

Lemma jackknifes_masks (n : Z) (seed : option Z) :
  exists resamples,
    jackknifes n None seed = Some resamples /\
    length resamples = Z.to_nat n /\
    forall i, i < Z.to_nat n ->
      length (nth i resamples []) = Z.to_nat n /\
      count_true (nth i resamples []) = Z.to_nat n - 1 /\
      forall j, j < Z.to_nat n ->
        nth j (nth i resamples []) false = negb (j =? i).
Proof.
  eexists. split; [reflexivity|]. split.
  - unfold range. now rewrite !length_map, length_seq.
  - intros i Hi.
    assert (Hnth : nth i (map (fun trial => ne_mask (arange n) trial) (range n)) []
                   = ne_mask (arange n) (Z.of_nat i)).
    { rewrite (nth_indep _ [] (ne_mask (arange n) 0%Z))
        by (unfold range; now rewrite !length_map, length_seq).
      rewrite (map_nth (fun trial => ne_mask (arange n) trial)).
      f_equal. apply nth_arange. exact Hi. }
    rewrite Hnth. split; [|split].
    + unfold ne_mask. now rewrite length_map, length_arange.
    + unfold arange. rewrite count_true_ne_mask_seq. simpl.
      replace (i <? Z.to_nat n) with true by (symmetry; apply Nat.ltb_lt; lia).
      reflexivity.
    + intros j Hj. rewrite nth_ne_mask by now rewrite length_arange.
      rewrite nth_arange by exact Hj. f_equal.
      destruct (Nat.eqb_spec j i), (Z.eqb_spec (Z.of_nat j) (Z.of_nat i)); try reflexivity; lia.
Qed.

(** sampling.py, [jackknifes]: with [n_resamples] left at None the
    generator yields exactly [n] masks of length [n]; the mask of resample
    [i] is False at observation [i] and True at every other one. *)
Theorem jackknifes_leave_one_out (n : Z) (seed : option Z) :
  exists resamples,
    jackknifes n None seed = Some resamples /\
    length resamples = Z.to_nat n /\
    forall i, i < Z.to_nat n ->
      length (nth i resamples []) = Z.to_nat n /\
      count_true (nth i resamples []) = Z.to_nat n - 1 /\
      forall j, j < Z.to_nat n ->
        nth j (nth i resamples []) false = negb (j =? i).
Proof. apply jackknifes_masks. Qed.

(** sampling.py, [jackknifes]: a number of resamples other than [n] is
    refused (AssertionError), and passing [n] itself changes nothing. *)
Theorem jackknifes_n_resamples (n k : Z) (seed : option Z) :
  jackknifes n (Some k) seed =
  if (k =? n)%Z then jackknifes n None seed else None.
Proof. unfold jackknifes. now destruct (k =? n)%Z. Qed.

(** sampling.py, [jackknifes]: two different resamples leave different
    observations out, so no resample is yielded twice. *)
Theorem jackknifes_distinct (n : Z) (seed : option Z) (resamples : list (list bool))
        (i j : nat) :
  jackknifes n None seed = Some resamples ->
  i < Z.to_nat n -> j < Z.to_nat n -> i <> j ->
  nth i resamples [] <> nth j resamples [].
Proof.
  intros Hr Hi Hj Hij E.
  destruct (jackknifes_masks n seed) as (rs & Hrs & _ & Hall).
  rewrite Hr in Hrs. injection Hrs as <-.
  destruct (Hall i Hi) as (_ & _ & Hii).
  destruct (Hall j Hj) as (_ & _ & Hjj).
  specialize (Hii i Hi). specialize (Hjj i Hi).
  rewrite <- E in Hjj. rewrite Hii in Hjj.
  rewrite Nat.eqb_refl in Hjj.
  destruct (Nat.eqb_spec i j); [contradiction|discriminate].
Qed.

Lemma jackknifes_distinct_witness :
  nth 0 [[false; true]; [true; false]] [] <> nth 1 [[false; true]; [true; false]] [].
Proof.
  apply (jackknifes_distinct 2 None [[false; true]; [true; false]] 0 1);
    [reflexivity | vm_compute; lia | vm_compute; lia | lia].
Defined.

End SamplingFacts.

Module UniqueFacts.
Import Unique.

Lemma In_drop_repeats (l : list Z) (v : Z) :
  In v (drop_repeats l) <-> In v l.
Proof.
  induction l as [|a l IH]; [reflexivity|].
  destruct l as [|b l]; [reflexivity|].
  change (drop_repeats (a :: b :: l))
    with (if (a =? b)%Z then drop_repeats (b :: l) else a :: drop_repeats (b :: l)).
  destruct (Z.eqb_spec a b) as [->|Hab].
  - rewrite IH. simpl. tauto.
  - simpl In at 1. rewrite IH. simpl. tauto.
Qed.

Lemma NoDup_drop_repeats (l : list Z) :
  StronglySorted Z.le l -> List.NoDup (drop_repeats l).
Proof.
  induction 1 as [|a l Hs IH Hall]; [constructor|].
  destruct l as [|b l]; [repeat constructor; intros []|].
  change (drop_repeats (a :: b :: l))
    with (if (a =? b)%Z then drop_repeats (b :: l) else a :: drop_repeats (b :: l)).
  destruct (Z.eqb_spec a b) as [->|Hab]; [exact IH|].
  constructor; [|exact IH].
  rewrite In_drop_repeats. intros Hin.
  inversion Hs as [|? ? Hs' Hall']; subst.
  inversion Hall as [|? ? Hab' _]; subst.
  destruct Hin as [->|Hin]; [congruence|].
  rewrite List.Forall_forall in Hall'. specialize (Hall' _ Hin). lia.
Qed.

Lemma In_np_unique (x : list Z) (v : Z) : In v (np_unique x) <-> In v x.
Proof.
  unfold np_unique, np_sort. rewrite In_drop_repeats.
  rewrite <- !list_elem_of_In. now rewrite merge_sort_Permutation.
Qed.

Lemma NoDup_np_unique (x : list Z) : List.NoDup (np_unique x).
Proof.
  apply NoDup_drop_repeats. apply StronglySorted_merge_sort; apply _.
Qed.

Lemma index_of_lt (v : Z) (x : list Z) : In v x -> index_of v x < length x.
Proof.
  induction x as [|a x IH]; simpl; [tauto|].
  intros [->|Hin]; [rewrite Z.eqb_refl; lia|].
  destruct (a =? v)%Z; [lia|]. specialize (IH Hin). lia.
Qed.

Lemma nth_index_of (v : Z) (x : list Z) :
  In v x -> nth (index_of v x) x 0%Z = v.
Proof.
  induction x as [|a x IH]; simpl; [tauto|].
  intros Hin. destruct (Z.eqb_spec a v) as [->|Hne]; [reflexivity|].
  destruct Hin; [contradiction|auto].
Qed.

Lemma in_first_positions (x : list Z) (i : nat) :
  In i (first_positions x) <-> exists v, In v x /\ i = index_of v x.
Proof.
  unfold first_positions. rewrite filter_In, in_seq. split.
  - intros [[_ Hi] Hf]. apply Nat.eqb_eq in Hf.
    exists (nth i x 0%Z). split; [apply nth_In; lia|congruence].
  - intros (v & Hin & ->). split; [split; [lia|apply index_of_lt, Hin]|].
    apply Nat.eqb_eq. now rewrite nth_index_of.
Qed.

Lemma Sorted_lt_seq (start len : nat) : Sorted lt (seq start len).
Proof.
  revert start. induction len as [|len IH]; intros start; simpl; [constructor|].
  constructor; [apply IH|]. destruct len; simpl; constructor. lia.
Qed.

Lemma StronglySorted_filter {B} (R : relation B) (f : B -> bool) (l : list B) :
  StronglySorted R l -> StronglySorted R (List.filter f l).
Proof.
  induction 1 as [|a l Hs IH Hall]; simpl; [constructor|].
  destruct (f a); [|exact IH]. constructor; [exact IH|].
  rewrite List.Forall_forall in *. intros y Hy. apply filter_In in Hy. apply Hall, Hy.
Qed.

Lemma first_positions_sorted (x : list Z) : StronglySorted lt (first_positions x).
Proof.
  apply StronglySorted_filter, Sorted_StronglySorted; [apply _|apply Sorted_lt_seq].
Qed.

Lemma StronglySorted_lt_le (l : list nat) :
  StronglySorted lt l -> StronglySorted le l.
Proof.
  induction 1 as [|a l Hs IH Hall]; constructor; [exact IH|].
  eapply List.Forall_impl; [|exact Hall]. intros; simpl in *; lia.
Qed.

Lemma StronglySorted_lt_NoDup (l : list nat) :
  StronglySorted lt l -> List.NoDup l.
Proof.
  induction 1 as [|a l Hs IH Hall]; constructor; [|exact IH].
  intros Hin. rewrite List.Forall_forall in Hall. specialize (Hall _ Hin). lia.
Qed.

Lemma index_of_inj (x : list Z) (v w : Z) :
  In v x -> In w x -> index_of v x = index_of w x -> v = w.
Proof.
  intros Hv Hw E. rewrite <- (nth_index_of v x Hv), <- (nth_index_of w x Hw).
  now rewrite E.
Qed.

(** The sorted index array is the increasing list of first positions. *)
Lemma sorted_indices (x : list Z) :
  np_sort_idx (snd (np_unique_index x)) = first_positions x.
Proof.
  unfold np_sort_idx, np_unique_index; simpl.
  apply (Sorted_unique le).
  - apply Sorted_merge_sort. apply _.
  - apply StronglySorted_Sorted, StronglySorted_lt_le, first_positions_sorted.
  - rewrite merge_sort_Permutation.
    apply NoDup_Permutation.
    + apply NoDup_ListNoDup.
      apply Finite.Injective_map_NoDup_in; [|apply NoDup_np_unique].
      intros v w Hv Hw. apply index_of_inj; now apply In_np_unique.
    + apply NoDup_ListNoDup, StronglySorted_lt_NoDup, first_positions_sorted.
    + intros i. rewrite !list_elem_of_In, in_first_positions, in_map_iff.
      split; intros (v & H1 & H2).
      * exists v. split; [now apply In_np_unique|congruence].
      * exists v. split; [congruence|now apply In_np_unique].
Qed.

Lemma first_positions_cons (a : Z) (x : list Z) :
  first_positions (a :: x) =
  0 :: map S (List.filter (fun i => negb (nth i x 0 =? a)%Z) (first_positions x)).
Proof.
  unfold first_positions. simpl length. simpl seq.
  rewrite <- seq_shift. simpl List.filter at 1.
  rewrite Z.eqb_refl. simpl. f_equal.
  generalize (seq 0 (length x)) as l. intros l.
  induction l as [|i l IH]; simpl; [reflexivity|].
  destruct (Z.eq_dec a (nth i x 0%Z)) as [E|E].
  - assert (E1 : (nth i x 0 =? a)%Z = true) by (apply Z.eqb_eq; congruence).
    assert (E2 : (a =? nth i x 0)%Z = true) by (apply Z.eqb_eq; congruence).
    rewrite E2. simpl.
    destruct (index_of (nth i x 0%Z) x =? i); simpl; [rewrite E1; simpl|]; exact IH.
  - assert (E1 : (nth i x 0 =? a)%Z = false) by (apply Z.eqb_neq; congruence).
    assert (E2 : (a =? nth i x 0)%Z = false) by (apply Z.eqb_neq; congruence).
    rewrite E2.
    change (S (index_of (nth i x 0%Z) x) =? S i)
      with (index_of (nth i x 0%Z) x =? i).
    destruct (index_of (nth i x 0%Z) x =? i); simpl; [|exact IH].
    rewrite E1. simpl. now rewrite IH.
Qed.

Lemma take_first_positions (x : list Z) :
  take x (first_positions x) = Some (first_seen x).
Proof.
  unfold take.
  assert (G : forall l, List.Forall (fun i => i < length x) l ->
              mapM (fun i => nth_error x i) l = Some (map (fun i => nth i x 0%Z) l)).
  { induction l as [|i l IH]; intros Hl; [reflexivity|].
    inversion Hl as [|? ? Hi Hl']; subst.
    cbn. rewrite (nth_error_nth' x 0%Z Hi). cbn. rewrite (IH Hl'). reflexivity. }
  rewrite G.
  - f_equal. clear G. induction x as [|a x IH]; [reflexivity|].
    rewrite first_positions_cons. simpl. f_equal.
    rewrite map_map. simpl. rewrite <- IH.
    generalize (first_positions x) as l. intros l.
    induction l as [|i l IHl]; simpl; [reflexivity|].
    destruct (nth i x 0 =? a)%Z; simpl; now rewrite IHl.
  - apply List.Forall_forall. intros i Hi.
    apply in_first_positions in Hi as (v & Hv & ->). now apply index_of_lt.
Qed.

Lemma In_first_seen (x : list Z) (v : Z) : In v (first_seen x) <-> In v x.
Proof.
  induction x as [|a x IH]; simpl; [reflexivity|].
  rewrite filter_In, IH, negb_true_iff, Z.eqb_neq.
  destruct (Z.eq_dec a v); intuition congruence.
Qed.

Lemma NoDup_first_seen (x : list Z) : List.NoDup (first_seen x).
Proof.
  induction x as [|a x IH]; simpl; constructor.
  - rewrite filter_In, negb_true_iff, Z.eqb_neq. tauto.
  - now apply List.NoDup_filter.
Qed.

(** neural_info.py, [_unsorted_unique]: on a one-dimensional array the
    function never raises and returns the elements of [x] in the order in
    which they first occur, each of them once. *)
Theorem unsorted_unique_first_seen (x : list Z) :
  _unsorted_unique x = Some (first_seen x).
Proof.
  unfold _unsorted_unique. rewrite sorted_indices. apply take_first_positions.
Qed.

(** neural_info.py, [_unsorted_unique]: the result has no repeated entry
    and holds exactly the values that occur in [x]. *)
Theorem unsorted_unique_set (x : list Z) :
  exists u, _unsorted_unique x = Some u /\
            List.NoDup u /\ forall v, In v u <-> In v x.
Proof.
  exists (first_seen x). split.
  { unfold _unsorted_unique. rewrite sorted_indices. apply take_first_positions. }
  split; [apply NoDup_first_seen|apply In_first_seen].
Qed.

Lemma first_seen_NoDup (x : list Z) : List.NoDup x -> first_seen x = x.
Proof.
  induction 1 as [|a x Hn Hd IH]; simpl; [reflexivity|].
  rewrite IH. f_equal.
  apply forallb_filter_id, forallb_forall. intros b Hb.
  apply negb_true_iff, Z.eqb_neq. congruence.
Qed.

(** neural_info.py, [_unsorted_unique]: an array without repeated values
    is returned as it is, whatever its order; in particular the function
    applied to its own result changes nothing. *)
Theorem unsorted_unique_fixed (x : list Z) :
  List.NoDup x -> _unsorted_unique x = Some x.
Proof.
  intros Hx. unfold _unsorted_unique. rewrite sorted_indices.
  rewrite take_first_positions. now rewrite first_seen_NoDup.
Qed.

Lemma unsorted_unique_fixed_witness : _unsorted_unique [3; 1; 2]%Z = Some [3; 1; 2]%Z.
Proof.
  apply (unsorted_unique_fixed [3; 1; 2]%Z).
  repeat constructor; simpl; intuition lia.
Defined.

End UniqueFacts.

(** ** What [_reshape_data] and [_unreshape_data] compute, cell by cell *)

Module ReshapeFacts.
Import NumPy NumPyFacts NeuralInfo NeuralInfoFacts.

Lemma normalize_axis_index_Some axis nd a :
  normalize_axis_index axis nd = Some a ->
  a < nd /\ (- Z.of_nat nd <= axis < Z.of_nat nd)%Z /\
  Z.of_nat a = (if (axis <? 0)%Z then Z.of_nat nd + axis else axis)%Z.
Proof.
  unfold normalize_axis_index.
  destruct (Z.leb_spec (- Z.of_nat nd) axis); [|discriminate].
  destruct (Z.ltb_spec axis (Z.of_nat nd)); [|discriminate]. simpl.
  intros [= <-]. destruct (Z.ltb_spec axis 0); repeat split; lia.
Qed.

Lemma normalize_axis_index_None axis nd :
  normalize_axis_index axis nd = None <->
  ~ (- Z.of_nat nd <= axis < Z.of_nat nd)%Z.
Proof.
  unfold normalize_axis_index.
  destruct (Z.leb_spec (- Z.of_nat nd) axis);
    destruct (Z.ltb_spec axis (Z.of_nat nd)); simpl; split;
    try discriminate; try lia; try reflexivity.
Qed.

Lemma normalize_axis_index_zero nd :
  0 < nd -> normalize_axis_index 0 nd = Some 0.
Proof. exact (normalize_axis_index_nat 0 nd). Qed.

Lemma length_remove_at {B} a (l : list B) :
  a < length l -> length (remove_at a l) = length l - 1.
Proof.
  intros Ha. unfold remove_at.
  rewrite length_app, length_firstn, length_skipn. lia.
Qed.

Lemma length_insert_at {B} a (x : B) (l : list B) :
  length (insert_at a x l) = S (length l).
Proof.
  unfold insert_at. rewrite length_app. simpl.
  rewrite length_firstn, length_skipn. lia.
Qed.

Lemma remove_insert_at {B} a (x : B) (l : list B) :
  a <= length l -> remove_at a (insert_at a x l) = l.
Proof.
  unfold remove_at, insert_at. revert a.
  induction l as [|b l IH]; intros [|a] Ha; simpl in *; try lia;
    try reflexivity.
  f_equal. apply IH. lia.
Qed.

Lemma nth_insert_at a (x : nat) (l : list nat) :
  a <= length l -> nth a (insert_at a x l) 0 = x.
Proof.
  unfold insert_at. revert a.
  induction l as [|b l IH]; intros [|a] Ha; simpl in *; try lia;
    try reflexivity.
  apply IH. lia.
Qed.

Lemma in_bounds_insert_at a i n u t :
  in_bounds u t -> i < n -> in_bounds (insert_at a i u) (insert_at a n t).
Proof.
  intros Hb Hi. unfold insert_at. revert a.
  induction Hb as [|x m u t Hx Hb IH]; intros [|a]; simpl.
  - repeat constructor. exact Hi.
  - repeat constructor. exact Hi.
  - constructor; [exact Hi|]. constructor; assumption.
  - constructor; [exact Hx|]. apply IH.
Qed.

Lemma move_item_from_front a (i : nat) (u : list nat) :
  move_item 0 a (i :: u) = insert_at a i u.
Proof. reflexivity. Qed.

Lemma move_item_front a (l : list nat) :
  move_item a 0 l = nth a l 0 :: remove_at a l.
Proof. reflexivity. Qed.

Lemma resolve_shape_empty_axis total :
  resolve_shape total [Z.of_nat 0; (-1)%Z] = None.
Proof. reflexivity. Qed.

Lemma prod_one (m : nat) : prod [m] = m.
Proof. simpl. lia. Qed.

Section Reshaping.
Context {A : Type} `{Inhabited A}.

Lemma get_move_axis_front (v : ndarray A) a i u :
  a < ndim v -> i < nth a (shape v) 0 -> in_bounds u (remove_at a (shape v)) ->
  get (move_axis v a 0) (i :: u) = get v (insert_at a i u).
Proof.
  intros Ha Hi Hu. unfold move_axis.
  rewrite get_build; [reflexivity|].
  rewrite move_item_front. constructor; assumption.
Qed.

Local Arguments Z.add _ _ : simpl never.
Local Arguments Z.of_nat _ : simpl never.
Local Arguments Z.ltb _ _ : simpl never.
Local Arguments Z.eqb _ _ : simpl never.
Local Arguments Nat.div _ _ : simpl never.
Local Arguments Nat.modulo _ _ : simpl never.

Lemma reshape_data_cells (y : array_obj A) (axis : Z) (a : nat) :
  wf (array_value y) ->
  normalize_axis_index axis (ndim (array_value y)) = Some a ->
  (2 < ndim (array_value y) -> nth a (shape (array_value y)) 0 <> 0) ->
  exists r,
    _reshape_data y axis = Some (r, shape (array_value y)) /\
    wf r /\
    shape r = [nth a (shape (array_value y)) 0;
               prod (remove_at a (shape (array_value y)))] /\
    forall i j,
      i < nth a (shape (array_value y)) 0 ->
      j < prod (remove_at a (shape (array_value y))) ->
      get r [i; j]
      = get (array_value y)
            (insert_at a i (unravel_F (remove_at a (shape (array_value y))) j)).
Proof.
  destruct y as [[s l] b]; unfold ndim; simpl.
  intros Hwf Hn Hne0.
  set (v := NDArray s l) in *.
  destruct (normalize_axis_index_Some _ _ _ Hn) as (Ha & Hax & Haz).
  pose proof (reshape_moveaxis_first_eq v axis a Hwf Hn Ha) as Hmv.
  assert (Hti : tuple_index s axis = Some (nth a s 0)).
  { unfold tuple_index. rewrite Hn. simpl. now apply nth_error_nth'. }
  pose (y1 := move_axis v a 0).
  assert (Hs1 : shape y1 = nth a s 0 :: remove_at a s) by reflexivity.
  assert (Hwf1 : wf y1) by apply wf_build.
  assert (Hget1 : forall i u, i < nth a s 0 -> in_bounds u (remove_at a s) ->
                              get y1 (i :: u) = get v (insert_at a i u)).
  { intros i u Hi Hu. now apply get_move_axis_front. }
  unfold _reshape_data, reshape_moveaxis_first; simpl.
  rewrite invert_bool_truthy, Hmv. simpl. fold y1.
  destruct (Nat.ltb_spec 2 (length s)) as [H3|H3].
  - (* three or more dimensions *)
    rewrite Hti. simpl.
    specialize (Hne0 H3).
    unfold reshape, size. rewrite Hs1. simpl prod.
    rewrite resolve_shape_infer by exact Hne0. simpl.
    destruct (Nat.eqb_spec (length s) 1); [lia|].
    eexists; split; [reflexivity|].
    split; [apply wf_build|]. split; [reflexivity|].
    intros i j Hi Hj.
    rewrite get_build by (repeat constructor; assumption).
    simpl ravel_F. simpl unravel_F.
    replace (i + nth a s 0 * (j + prod (remove_at a s) * 0))
      with (i + j * nth a s 0) by lia.
    rewrite Nat.Div0.mod_add, Nat.mod_small by exact Hi.
    rewrite Nat.div_add by exact Hne0.
    rewrite Nat.div_small by exact Hi. simpl.
    apply Hget1; [exact Hi|]. now apply unravel_F_in_bounds.
  - simpl.
    destruct (Nat.eqb_spec (length s) 1) as [E1|E1].
    + (* a vector *)
      destruct s as [|n [|? ?]]; simpl in E1; try lia.
      assert (a = 0) by (simpl in Ha; lia). subst a.
      assert (Ey1 : y1 = v).
      { apply move_axis_0_0; [exact Hwf|discriminate]. }
      rewrite Ey1. unfold newaxis_1. simpl.
      eexists; split; [reflexivity|].
      unfold wf in *. simpl in *.
      split; [lia|]. split; [reflexivity|].
      intros i j Hi Hj. assert (j = 0) by lia. subst j.
      unfold get. simpl. first [reflexivity | f_equal; lia].
    + (* a matrix *)
      destruct s as [|n0 [|n1 [|? ?]]]; simpl in E1, H3, Ha; try lia.
      eexists; split; [reflexivity|].
      split; [exact Hwf1|].
      destruct a as [|[|a]]; try lia.
      * split; [rewrite Hs1; simpl; now rewrite Nat.mul_1_r|].
        intros i j Hi Hj. unfold remove_at in Hj. simpl in Hi, Hj.
        rewrite Nat.mul_1_r in Hj.
        change (remove_at 0 [n0; n1]) with [n1]. simpl unravel_F.
        rewrite Nat.mod_small by exact Hj.
        apply (Hget1 i [j]); [exact Hi|]. repeat constructor. exact Hj.
      * split; [rewrite Hs1; simpl; now rewrite Nat.mul_1_r|].
        intros i j Hi Hj. unfold remove_at in Hj. simpl in Hi, Hj.
        rewrite Nat.mul_1_r in Hj.
        change (remove_at 1 [n0; n1]) with [n0]. simpl unravel_F.
        rewrite Nat.mod_small by exact Hj.
        apply (Hget1 i [j]); [exact Hi|]. repeat constructor. exact Hj.
Qed.

(** neural_info.py, [_reshape_data]: for an array of one or more
    dimensions and an axis in range (with a non-empty observation axis
    when there are three dimensions or more) the function returns the
    original shape and an (n_obs, n_series) matrix, n_series being the
    product of the other axis lengths; row [i] of column [j] is the
    observation [i] of the data series whose position along the other
    axes is the column-major unravelling of [j]. *)
Theorem reshape_data_spec (y : array_obj A) (axis : Z) (a : nat) :
  wf (array_value y) ->
  normalize_axis_index axis (ndim (array_value y)) = Some a ->
  (2 < ndim (array_value y) -> nth a (shape (array_value y)) 0 <> 0) ->
  exists r,
    _reshape_data y axis = Some (r, shape (array_value y)) /\
    wf r /\
    shape r = [nth a (shape (array_value y)) 0;
               prod (remove_at a (shape (array_value y)))] /\
    forall i j,
      i < nth a (shape (array_value y)) 0 ->
      j < prod (remove_at a (shape (array_value y))) ->
      get r [i; j]
      = get (array_value y)
            (insert_at a i (unravel_F (remove_at a (shape (array_value y))) j)).
Proof. apply reshape_data_cells. Qed.

Lemma get_move_axis_back (d : ndarray A) a idx :
  a < ndim d -> in_bounds idx (move_item 0 a (shape d)) ->
  get (move_axis d 0 a) idx = get d (nth a idx 0 :: remove_at a idx).
Proof.
  intros Ha Hb. unfold move_axis.
  rewrite get_build by exact Hb. reflexivity.
Qed.

Lemma in_bounds_insert_inv a k t idx :
  a <= length t -> in_bounds idx (insert_at a k t) ->
  nth a idx 0 < k /\ in_bounds (remove_at a idx) t.
Proof.
  unfold in_bounds, insert_at, remove_at. revert a idx.
  induction t as [|m t IH]; intros [|a] idx Ha Hb; simpl in *; try lia.
  - inversion Hb as [|i ? u ? Hi Hu]; subst. inversion Hu; subst.
    simpl. split; [exact Hi|constructor].
  - inversion Hb as [|i ? u ? Hi Hu]; subst. simpl. split; [exact Hi|].
    exact Hu.
  - inversion Hb as [|i ? u ? Hi Hu]; subst. simpl.
    destruct (IH a u ltac:(lia) Hu) as [H1 H2]. split; [exact H1|].
    constructor; assumption.
Qed.

Lemma unreshape_data_cells (d : ndarray A) (s : list nat) (axis : Z) (a k : nat) :
  wf d -> 2 <= length s ->
  normalize_axis_index axis (length s) = Some a ->
  shape d = [k; prod (remove_at a s)] ->
  exists r,
    _unreshape_data d s axis = Some r /\
    wf r /\
    shape r = insert_at a k (remove_at a s) /\
    forall idx, in_bounds idx (shape r) ->
      get r idx = get d [nth a idx 0; ravel_F (remove_at a s) (remove_at a idx)].
Proof.
  intros Hwf H2 Hn Hsd.
  destruct (normalize_axis_index_Some _ _ _ Hn) as (Ha & Hax & Haz).
  pose proof (length_remove_at a s Ha) as Hlr.
  unfold _unreshape_data. rewrite <- Haz.
  unfold tuple_index. rewrite Hsd. simpl length.
  rewrite normalize_axis_index_zero by lia. simpl nth_error. simpl.
  destruct (Nat.ltb_spec 2 (length s)) as [H3|H3].
  - (* three or more dimensions *)
    rewrite mask_ne_remove_at.
    unfold reshape, size. rewrite Hsd.
    replace (prod [k; prod (remove_at a s)])
      with (prod (k :: remove_at a s)) by (simpl; lia).
    rewrite resolve_shape_exact. simpl.
    set (d1 := build (k :: remove_at a s) _).
    assert (Hnd1 : ndim d1 = length s).
    { unfold ndim, d1. simpl. lia. }
    assert (Hg1 : forall i u, i < k -> in_bounds u (remove_at a s) ->
                  get d1 (i :: u) = get d [i; ravel_F (remove_at a s) u]).
    { intros i u Hi Hu. unfold d1.
      rewrite get_build by (constructor; assumption).
      simpl ravel_F. simpl unravel_F.
      pose proof (ravel_F_lt _ _ Hu) as Hlt.
      destruct (Nat.eq_dec k 0) as [->|Hk]; [lia|].
      replace (i + k * ravel_F (remove_at a s) u)
        with (i + ravel_F (remove_at a s) u * k) by lia.
      rewrite Nat.Div0.mod_add, Nat.mod_small by exact Hi.
      rewrite Nat.div_add by exact Hk.
      rewrite Nat.div_small by exact Hi. simpl.
      destruct (Nat.eq_dec (prod (remove_at a s)) 0) as [E0|E0]; [lia|].
      rewrite Nat.mod_small by exact Hlt. reflexivity. }
    destruct (Z.eqb_spec (Z.of_nat a) 0) as [E|E]; simpl.
    + assert (a = 0) by lia. subst a.
      eexists; split; [reflexivity|].
      split; [apply wf_build|]. split; [reflexivity|].
      intros idx Hb. change (shape d1) with (k :: remove_at 0 s) in Hb.
      inversion Hb as [|i ? u ? Hi Hu]; subst.
      change (remove_at 0 (i :: u)) with u. simpl nth.
      now apply Hg1.
    + unfold moveaxis. rewrite Hnd1.
      rewrite normalize_axis_index_zero by lia. simpl.
      rewrite (normalize_axis_index_nat a) by lia. simpl.
      eexists; split; [reflexivity|].
      split; [apply wf_build|]. split; [reflexivity|].
      intros idx Hb.
      change (shape (move_axis d1 0 a)) with (insert_at a k (remove_at a s)) in Hb.
      rewrite get_move_axis_back; [|rewrite Hnd1; exact Ha|exact Hb].
      destruct (in_bounds_insert_inv a k (remove_at a s) idx ltac:(lia) Hb) as [Hi Hu].
      now apply Hg1.
  - (* a matrix *)
    assert (E2 : length s = 2) by lia.
    destruct (Nat.eqb_spec (length s) 1); [lia|].
    destruct s as [|n0 [|n1 [|? ?]]]; simpl in E2; try lia.
    destruct d as [sd ld]. simpl in Hsd. subst sd.
    destruct a as [|[|a]]; simpl in Ha; try lia.
    + change (remove_at 0 [n0; n1]) with [n1] in *. rewrite prod_one in *.
      change (Z.of_nat 0 =? 0)%Z with true. simpl.
      eexists; split; [reflexivity|].
      split; [exact Hwf|]. split; [reflexivity|].
      intros idx Hb. simpl in Hb.
      inversion Hb as [|i ? u ? Hi Hu]; subst.
      inversion Hu as [|j ? u' ? Hj Hu']; subst. inversion Hu'; subst.
      change (remove_at 0 [i; j]) with [j]. simpl.
      now rewrite Nat.mul_0_r, Nat.add_0_r.
    + change (remove_at 1 [n0; n1]) with [n0] in *. rewrite prod_one in *.
      change (Z.of_nat 1 =? 0)%Z with false. simpl.
      unfold moveaxis.
      change (ndim {| shape := [k; n0]; elems := ld |}) with 2.
      rewrite normalize_axis_index_zero by lia.
      rewrite (normalize_axis_index_nat 1 2) by lia. simpl.
      eexists; split; [reflexivity|].
      split; [apply wf_build|]. split; [reflexivity|].
      intros idx Hb.
      change (shape (move_axis {| shape := [k; n0]; elems := ld |} 0 1))
        with [n0; k] in Hb.
      rewrite get_move_axis_back; [|unfold ndim; simpl; lia|exact Hb].
      inversion Hb as [|j ? u ? Hj Hu]; subst.
      inversion Hu as [|i ? u' ? Hi Hu']; subst. inversion Hu'; subst.
      change (remove_at 1 [j; i]) with [j]. simpl.
      now rewrite Nat.mul_0_r, Nat.add_0_r.
Qed.

(** neural_info.py, [_unreshape_data]: given the shape of an array of two
    or more dimensions and a (k, n_series) matrix, the function returns
    the array whose shape is the original one with the observation axis
    of length k; its cell at an index is the matrix entry in the row given
    by the index's observation coordinate and the column given by the
    column-major ravelling of its other coordinates. *)
Theorem unreshape_data_spec (d : ndarray A) (s : list nat) (axis : Z) (a k : nat) :
  wf d -> 2 <= length s ->
  normalize_axis_index axis (length s) = Some a ->
  shape d = [k; prod (remove_at a s)] ->
  exists r,
    _unreshape_data d s axis = Some r /\
    wf r /\
    shape r = insert_at a k (remove_at a s) /\
    forall idx, in_bounds idx (shape r) ->
      get r idx = get d [nth a idx 0; ravel_F (remove_at a s) (remove_at a idx)].
Proof. apply unreshape_data_cells. Qed.

(** neural_info.py, [_reshape_data]: the function raises in exactly two
    cases: the axis is not 0 and lies outside [-ndim, ndim) (AxisError of
    [np.moveaxis]), or the array has three or more dimensions and its
    observation axis is empty (ValueError of [np.reshape], which cannot
    infer the -1 entry).  In particular axis 0 is accepted for arrays of
    at most two dimensions whatever they hold. *)
Theorem reshape_data_raises (y : array_obj A) (axis : Z) :
  _reshape_data y axis = None <->
  (axis <> 0%Z /\ normalize_axis_index axis (ndim (array_value y)) = None) \/
  (2 < ndim (array_value y) /\
   tuple_index (shape (array_value y)) axis = Some 0).
Proof.
  destruct y as [[s l] b]; unfold ndim; simpl.
  set (v := NDArray s l).
  unfold _reshape_data, reshape_moveaxis_first; simpl.
  rewrite invert_bool_truthy. fold v.
  destruct (Z.eqb_spec axis 0) as [->|Hne]; simpl.
  - (* axis 0: nothing is moved *)
    destruct (Nat.ltb_spec 2 (length s)) as [H3|H3].
    + destruct s as [|n s']; [simpl in H3; lia|].
      unfold tuple_index.
      rewrite normalize_axis_index_zero by (simpl; lia).
      cbn [mbind option_bind nth_error].
      destruct (Nat.eq_dec n 0) as [->|Hn0].
      * unfold reshape, size. simpl. split; [intros _|reflexivity].
        right. split; [exact H3|reflexivity].
      * unfold reshape, size. change (prod (shape v)) with (n * prod s').
        rewrite resolve_shape_infer by exact Hn0.
        cbn [mbind option_bind].
        destruct (Nat.eqb_spec (length (n :: s')) 1) as [E|E];
          [simpl in E, H3; lia|].
        cbn [mbind option_bind].
        split; [discriminate|].
        intros [[Hc _]|[_ Hc]]; [congruence|]. injection Hc as ->. congruence.
    + destruct (Nat.eqb_spec (length s) 1) as [E1|E1].
      * destruct s as [|n [|? ?]]; simpl in E1; try lia. simpl.
        split; [discriminate|]. intros [[Hc _]|[Hc _]]; [congruence|simpl in Hc; lia].
      * simpl. split; [discriminate|].
        intros [[Hc _]|[Hc _]]; [congruence|lia].
  - (* another axis: moved to the front *)
    unfold moveaxis. change (ndim v) with (length s).
    destruct (normalize_axis_index axis (length s)) as [a|] eqn:Hn.
    + destruct (normalize_axis_index_Some _ _ _ Hn) as (Ha & Hax & Haz).
      rewrite normalize_axis_index_zero by lia. cbn [mbind option_bind].
      assert (Hti : tuple_index s axis = Some (nth a s 0)).
      { unfold tuple_index. rewrite Hn. simpl. now apply nth_error_nth'. }
      rewrite Hti.
      destruct (Nat.ltb_spec 2 (length s)) as [H3|H3].
      * cbn [mbind option_bind].
        unfold reshape, size.
        change (shape (move_axis v a 0)) with (nth a s 0 :: remove_at a s).
        destruct (Nat.eq_dec (nth a s 0) 0) as [E0|E0].
        -- rewrite E0. rewrite resolve_shape_empty_axis.
           cbn [mbind option_bind]. split; [intros _|reflexivity].
           right. split; [exact H3|reflexivity].
        -- change (prod (nth a s 0 :: remove_at a s))
             with (nth a s 0 * prod (remove_at a s)).
           rewrite resolve_shape_infer by exact E0.
           cbn [mbind option_bind].
           destruct (Nat.eqb_spec (length s) 1); [lia|].
           cbn [mbind option_bind].
           split; [discriminate|].
           intros [[_ Hc]|[_ Hc]]; [discriminate|]. injection Hc as Hc. congruence.
      * destruct (Nat.eqb_spec (length s) 1) as [E1|E1].
        -- unfold newaxis_1.
           change (shape (move_axis v a 0)) with (nth a s 0 :: remove_at a s).
           cbn [mbind option_bind].
           split; [discriminate|].
           intros [[_ Hc]|[Hc _]]; [discriminate|lia].
        -- cbn [mbind option_bind]. split; [discriminate|].
           intros [[_ Hc]|[Hc _]]; [discriminate|lia].
    + cbn [mbind option_bind]. split; [intros _|reflexivity].
      left. split; [exact Hne|reflexivity].
Qed.

End Reshaping.

Lemma reshape_data_spec_witness :
  exists r,
    _reshape_data (ArrayObj ReshapeInputs.y234 true) 1
      = Some (r, shape ReshapeInputs.y234) /\
    wf r /\
    shape r = [nth 1 (shape ReshapeInputs.y234) 0;
               prod (remove_at 1 (shape ReshapeInputs.y234))] /\
    forall i j,
      i < nth 1 (shape ReshapeInputs.y234) 0 ->
      j < prod (remove_at 1 (shape ReshapeInputs.y234)) ->
      get r [i; j]
      = get ReshapeInputs.y234
            (insert_at 1 i (unravel_F (remove_at 1 (shape ReshapeInputs.y234)) j)).
Proof.
  apply (reshape_data_spec (ArrayObj ReshapeInputs.y234 true) 1 1);
    [reflexivity | reflexivity | simpl; lia].
Defined.

Lemma unreshape_data_spec_witness :
  exists r,
    _unreshape_data (NDArray [1; 8] [10; 11; 12; 13; 14; 15; 16; 17]%Z)
                    [2; 3; 4] 1 = Some r /\
    wf r /\
    shape r = insert_at 1 1 (remove_at 1 [2; 3; 4]) /\
    forall idx, in_bounds idx (shape r) ->
      get r idx
      = get (NDArray [1; 8] [10; 11; 12; 13; 14; 15; 16; 17]%Z)
            [nth 1 idx 0; ravel_F (remove_at 1 [2; 3; 4]) (remove_at 1 idx)].
Proof.
  apply (unreshape_data_spec (NDArray [1; 8] [10; 11; 12; 13; 14; 15; 16; 17]%Z)
                             [2; 3; 4] 1 1 1);
    [reflexivity | simpl; lia | reflexivity | reflexivity].
Defined.

Lemma reshape_unreshape_roundtrip_witness :
  exists r,
    _reshape_data (ArrayObj ReshapeInputs.y234 false) (-1)
      = Some (r, shape ReshapeInputs.y234) /\
    _unreshape_data r (shape ReshapeInputs.y234) (-1) = Some ReshapeInputs.y234.
Proof.
  apply (reshape_unreshape_roundtrip (ArrayObj ReshapeInputs.y234 false) (-1)%Z);
    [reflexivity | unfold ndim; simpl; lia | discriminate | intros _; discriminate].
Defined.

End ReshapeFacts.

(** ** The one-way ANOVA model *)

Module InfoFacts.
Import NumPy NumPyFacts NeuralInfo NeuralInfoFacts ReshapeFacts.
Import Num NumFacts Anova Unique UniqueFacts Info.
Local Open Scope R_scope.

(** *** Sums *)











(** *** Observations of one group *)










(** *** From the sums of squares to the statistic *)

Lemma anova1_exp_var_cells as_pct n_obs n_groups (SS : list (R * R)) :
  anova1_exp_var true as_pct n_obs n_groups (map fst SS) (map snd SS)
  = Some (map (anova1_cell as_pct n_obs n_groups) SS).
Proof.
  assert (E : map (fun p : fval * bool => if snd p then Fin 0 else fst p)
                (combine
                   (map (fun p : R * R * fval =>
                           omega_squared (fst (fst p)) (snd (fst p)) (snd p)
                                         (n_groups - 1))
                        (combine
                           (combine (map fst SS)
                                    (map (fun t : R => if is_zero t then 1 else t)
                                         (map snd SS)))
                           (map (fun p : R * R =>
                                   fdiv (Fin (fst p - snd p))
                                        (Fin (IZR (n_obs - 1 - (n_groups - 1)))))
                                (combine (map snd SS) (map fst SS)))))
                   (map is_zero (map snd SS)))
              = map (anova1_cell false n_obs n_groups) SS).
  { induction SS as [|[g t] SS IH]; [reflexivity|].
    cbn [map combine]. rewrite IH. f_equal.
    unfold anova1_cell. cbn [fst snd]. now destruct (is_zero t). }
  unfold anova1_exp_var. cbv zeta. rewrite E.
  destruct as_pct; [|reflexivity].
  rewrite map_map. reflexivity.
Qed.


(** *** The whole function *)


Lemma np_unique_nonempty (x : list Z) : x <> [] -> np_unique x <> [].
Proof.
  destruct x as [|a x]; [congruence|]. intros _ E.
  assert (H : In a (np_unique (a :: x))) by (apply In_np_unique; now left).
  rewrite E in H. exact H.
Qed.








(** neural_info.py, [anova1]: called with [omega=False] the function
    never returns, whatever its other arguments: [eta_squared] gives a
    vector, and the assignment [exp_var[:,undefined] = 0] addresses two
    axes of it. *)
Theorem anova1_eta_squared_raises (X : ndarray Z) (y : array_obj R) (axis : Z)
        (gm_method : string) (as_pct : bool) :
  anova1 X y axis false gm_method as_pct = None.
Proof.
  unfold anova1.
  destruct (_reshape_data y axis) as [[y2 sh]|]; [|reflexivity].
  cbn [mbind option_bind fst snd].
  destruct (shape y2) as [|n_obs [|n_series [|? ?]]]; try reflexivity.
  destruct (single_column X) as [[|]|]; try reflexivity.
  cbn [mbind option_bind negb].
  destruct (nth_error (shape X) 0) as [n0|]; [|reflexivity].
  cbn [mbind option_bind].
  destruct (negb (n0 =? n_obs)%nat); [reflexivity|].
  destruct (negb (ndim X =? 1)%nat && negb (length (np_unique (elems X)) =? 0)%nat);
    [reflexivity|].
  destruct (parse_gm_method gm_method); reflexivity.
Qed.

Lemma anova1_labels_not_a_vector (X : ndarray Z) (y : array_obj R) (axis : Z)
      (omega : bool) (gm_method : string) (as_pct : bool) :
  ndim X <> 1%nat -> elems X <> [] ->
  anova1 X y axis omega gm_method as_pct = None.
Proof.
  intros Hnd Hne. unfold anova1.
  destruct (_reshape_data y axis) as [[y2 sh]|]; [|reflexivity].
  cbn [mbind option_bind fst snd].
  destruct (shape y2) as [|n_obs [|n_series [|? ?]]]; try reflexivity.
  destruct (single_column X) as [[|]|]; try reflexivity.
  cbn [mbind option_bind negb].
  destruct (nth_error (shape X) 0) as [n0|]; [|reflexivity].
  cbn [mbind option_bind].
  destruct (negb (n0 =? n_obs)%nat); [reflexivity|].
  destruct (Nat.eqb_spec (ndim X) 1); [contradiction|].
  pose proof (np_unique_nonempty _ Hne) as Hg.
  destruct (np_unique (elems X)); [congruence|]. reflexivity.
Qed.

(** neural_info.py, [anova1]: labels given as a column, an (n_obs, 1)
    array, pass both assertions on [X] but make the function raise as soon
    as there is an observation: the mask [X == group] is two-dimensional,
    and [y[group_idxs,:]] then addresses three axes of the matrix [y]. *)
Theorem anova1_column_labels_raise (X : ndarray Z) (y : array_obj R) (axis : Z)
        (omega : bool) (gm_method : string) (as_pct : bool) :
  ndim X <> 1%nat -> elems X <> [] ->
  anova1 X y axis omega gm_method as_pct = None.
Proof. apply anova1_labels_not_a_vector. Qed.

Lemma anova1_column_labels_raise_witness :
  anova1 InfoInputs.column_labels InfoInputs.data 0 true "mean_of_obs" true = None.
Proof.
  apply (anova1_column_labels_raise InfoInputs.column_labels InfoInputs.data 0
                                    true "mean_of_obs" true);
    [unfold ndim; simpl; lia | discriminate].
Defined.

(** *** Data without variance *)






(** *** The dispatch *)

(** neural_info.py, [pev]: when no model is named and the labels come as a
    column with at least one row, [pev] takes the model to be 'anova1'
    ([X.shape[1] == 1]) and hands the column to [anova1], which raises on
    it: such a call never returns, whatever the data. *)
Theorem pev_column_labels_raise
        (anova2 regress : ndarray Z -> array_obj R -> Z -> bool -> option (ndarray fval))
        (X : ndarray Z) (y : array_obj R) (axis : Z) (as_pct : bool) (n : nat) :
  shape X = [S n; 1%nat] -> wf X ->
  pev anova2 regress X y axis None as_pct = None.
Proof.
  intros HX HwfX. unfold pev, infer_model, single_column, ndim.
  rewrite HX. simpl.
  apply anova1_labels_not_a_vector.
  - unfold ndim. rewrite HX. simpl. lia.
  - destruct X as [sX lX]. unfold wf in HwfX. simpl in *. subst sX.
    simpl in HwfX. destruct lX; [simpl in HwfX; lia|discriminate].
Qed.

Lemma pev_column_labels_raise_witness :
  pev (fun _ _ _ _ => None) (fun _ _ _ _ => None)
      InfoInputs.column_labels InfoInputs.data 0 None true = None.
Proof.
  apply (pev_column_labels_raise _ _ InfoInputs.column_labels InfoInputs.data
                                 0 true 5); reflexivity.
Defined.

(** *** Vector data *)

Lemma map_get_vector (n : nat) (l : list R) :
  length l = n -> map (fun i => get (NDArray [n] l) [i]) (seq 0 n) = l.
Proof.
  intros Hl. subst n.
  transitivity (map (fun k => nth k l inhabitant) (seq 0 (length l)));
    [|apply map_nth_seq].
  apply map_ext. intros i. unfold get. simpl. f_equal. lia.
Qed.

(** neural_info.py, [anova1]: for a data vector (one series) the result
    is a 0-d array holding the statistic of the series, not the array of
    shape (1,) the docstring describes ("Shape is same as y, with
    observation axis reduced to length 1"): [_unreshape_data] squeezes
    both axes of the (1,1) result away. *)
Theorem anova1_vector_data (X : ndarray Z) (n : nat) (l : list R) (c : bool)
        (axis : Z) (gm_method : string) (g : gm) (as_pct : bool) :
  length l = n -> (axis = 0 \/ axis = -1)%Z ->
  shape X = [n] ->
  parse_gm_method gm_method = Some g ->
  exists r,
    anova1 X (ArrayObj (NDArray [n] l) c) axis true gm_method as_pct = Some r /\
    shape r = [] /\
    get r []
    = anova1_cell as_pct (Z.of_nat n) (Z.of_nat (length (np_unique (elems X))))
                  (series_SS g (elems X) (np_unique (elems X)) l).
Proof.
  intros Hl Hax HX Hg.
  assert (Hwf : wf (array_value (ArrayObj (NDArray [n] l) c)))
    by (unfold wf; simpl; lia).
  assert (Hn : normalize_axis_index axis
                 (ndim (array_value (ArrayObj (NDArray [n] l) c))) = Some 0%nat)
    by (destruct Hax as [-> | ->]; reflexivity).
  destruct (reshape_data_cells _ axis 0%nat Hwf Hn ltac:(unfold ndim; simpl; lia))
    as (y2 & Hr & Hwf2 & Hs2 & Hg2).
  cbn [array_value shape nth] in Hr, Hs2, Hg2.
  change (prod (remove_at 0 [n])) with 1%nat in Hs2, Hg2.
  set (cell := anova1_cell as_pct (Z.of_nat n)
                 (Z.of_nat (length (np_unique (elems X))))
                 (series_SS g (elems X) (np_unique (elems X)) l)).
  exists (NDArray [] [cell]). split; [|split; reflexivity].
  unfold anova1. rewrite Hr. cbn [mbind option_bind fst snd]. rewrite Hs2.
  unfold single_column, ndim. rewrite HX. simpl length. simpl Nat.eqb.
  cbn [mbind option_bind negb nth_error andb].
  rewrite Nat.eqb_refl. cbn [negb]. rewrite Hg. cbn [mbind option_bind].
  rewrite (anova1_exp_var_cells as_pct _ _
             (map (fun j => series_SS g (elems X) (np_unique (elems X))
                                      (column y2 n j)) (seq 0 1))).
  cbn [mbind option_bind]. simpl seq. cbn [map].
  assert (Ecol : column y2 n 0 = l).
  { unfold column.
    transitivity (map (fun i => get (NDArray [n] l) [i]) (seq 0 n));
      [|now apply map_get_vector].
    apply map_ext_in. intros i Hi. apply in_seq in Hi.
    rewrite Hg2 by lia. reflexivity. }
  rewrite Ecol. fold cell.
  destruct Hax as [-> | ->]; reflexivity.
Qed.

Lemma anova1_vector_data_witness :
  exists r,
    anova1 (NDArray [2%nat] [0; 1]%Z) (ArrayObj (NDArray [2%nat] [1; 2]) true) 0
           true "mean_of_obs" true = Some r /\
    shape r = [] /\
    get r []
    = anova1_cell true (Z.of_nat 2)
        (Z.of_nat (length (np_unique (elems (NDArray [2%nat] [0; 1]%Z)))))
        (series_SS MeanOfObs (elems (NDArray [2%nat] [0; 1]%Z))
                   (np_unique (elems (NDArray [2%nat] [0; 1]%Z))) [1; 2]).
Proof.
  apply (anova1_vector_data (NDArray [2%nat] [0; 1]%Z) 2 [1; 2] true 0
                            "mean_of_obs" MeanOfObs true);
    [reflexivity | now left | reflexivity | reflexivity].
Defined.

End InfoFacts.
